(** * mcp_simple_arxiv: the rate-limited arXiv client

    A shallow embedding of [src/mcp_simple_arxiv/arxiv_client.py]
    (class [ArxivClient]) and the properties of its rate gate, its
    entry normalisation and its failure reporting.

    Conventions of the embedding:
    - a Python [str] is the list of its Unicode code points;
    - a value of unknown dynamic type ([Any]) is a [pyval];
    - a raising operation returns [inl exn];
    - time is counted in microseconds, the resolution of [datetime]. *)

From Stdlib Require Import ZArith NArith Lia Ascii String.
From stdpp Require Import gmap strings list sorting.

Local Open Scope Z_scope.
Set Warnings "-register-all".

(** ** Python strings and the builtins the client calls on them *)

Module PyStr.

(** Code points; a [str] is a sequence of them. *)
Definition char := N.
Definition str := list N.

(** A literal of the source, as a [str]. *)
Definition u (s : string) : str :=
  map N_of_ascii (list_ascii_of_string s).

(** [str.isspace] on one code point (CPython's [_PyUnicode_IsWhitespace]). *)
Definition isspace (c : char) : bool :=
  ((9 <=? c) && (c <=? 13) || (28 <=? c) && (c <=? 32)
   || (c =? 133) || (c =? 160) || (c =? 5760)
   || (8192 <=? c) && (c <=? 8202)
   || (c =? 8232) || (c =? 8233) || (c =? 8239) || (c =? 8287)
   || (c =? 12288))%N.

Definition space : char := 32%N.
Definition newline : char := 10%N.

(** [text.split()]: the maximal whitespace-free pieces of [s]; [cur] is
    the piece being scanned. *)
Fixpoint split_ws_go (cur s : str) : list str :=
  match s with
  | [] => match cur with [] => [] | _ => [cur] end
  | c :: s' =>
      if isspace c
      then match cur with
           | [] => split_ws_go [] s'
           | _ => cur :: split_ws_go [] s'
           end
      else split_ws_go (cur ++ [c]) s'
  end.

Definition split_ws (s : str) : list str := split_ws_go [] s.

(** [sep.join(pieces)]. *)
Fixpoint join (sep : str) (pieces : list str) : str :=
  match pieces with
  | [] => []
  | [w] => w
  | w :: ws => w ++ sep ++ join sep ws
  end.

(** [s.lstrip()] and [s.rstrip()]. *)
Fixpoint lstrip (s : str) : str :=
  match s with
  | [] => []
  | c :: s' => if isspace c then lstrip s' else s
  end.

Fixpoint rstrip (s : str) : str :=
  match s with
  | [] => []
  | c :: s' =>
      match rstrip s' with
      | [] => if isspace c then [] else [c]
      | r => c :: r
      end
  end.

(** [s.startswith(p)]. *)
Fixpoint startswith (p s : str) : bool :=
  match p, s with
  | [], _ => true
  | a :: p', b :: s' => (a =? b)%N && startswith p' s'
  | _ :: _, [] => false
  end.

(** [s.find(sep)]: index of the first occurrence, if any. *)
Fixpoint find (sep s : str) : option nat :=
  if startswith sep s then Some 0%nat
  else match s with
       | [] => None
       | _ :: s' => S <$> find sep s'
       end.

(** [s.split(sep)] for a non-empty [sep]: cut at each occurrence found
    scanning left to right, resuming after the occurrence.  [n] bounds
    the number of cuts; [split] gives it the length of [s]. *)
Fixpoint split_upto (n : nat) (sep s : str) : list str :=
  match n with
  | O => [s]
  | S n' =>
      match find sep s with
      | None => [s]
      | Some j => take j s :: split_upto n' sep (drop (j + length sep) s)
      end
  end.

Definition split (sep s : str) : list str := split_upto (length s) sep s.

(** [pieces[-1]] of a non-empty list. *)
Definition last_piece (pieces : list str) : str := default [] (last pieces).

(** [sep in s]. *)
Definition occurs (sep s : str) : Prop := ∃ a b, s = a ++ sep ++ b.

End PyStr.

(** ** Python values, exceptions and results *)

Module Py.
Import PyStr.

(** A value of dynamic type.  [PDict] is a [dict] (or feedparser's
    [FeedParserDict], whose attributes are its keys); [PObj] is any other
    object, given by its data attributes. *)
Inductive pyval :=
| PNone
| PBool (b : bool)
| PInt (n : Z)
| PStr (s : str)
| PList (items : list pyval)
| PDict (d : gmap string pyval)
| PObj (attrs : gmap string pyval).

(** Exception classes that can leave the client.  The message text of an
    exception raised by the interpreter itself is not modelled (empty). *)
Inductive exc_class :=
| ValueError | TypeError | AttributeError | KeyError | IndexError
| HTTPError.

Record exn := Exn { exc_type : exc_class; exc_msg : str }.

(** The outcome of an expression: raised, or evaluated to a value. *)
Definition result (A : Type) : Type := exn + A.

Definition raise {A} (c : exc_class) (msg : str) : result A :=
  inl (Exn c msg).

#[export] Instance result_ret : MRet result := λ A x, inr x.
#[export] Instance result_bind : MBind result := λ A B f m,
  match m with inl e => inl e | inr x => f x end.

(** [bool(v)]. *)
Definition truthy (v : pyval) : bool :=
  match v with
  | PNone => false
  | PBool b => b
  | PInt n => negb (n =? 0)
  | PStr s => negb (bool_decide (s = []))
  | PList l => negb (bool_decide (l = []))
  | PDict d => negb (bool_decide (d = ∅))
  | PObj _ => true
  end.

(** [isinstance(v, dict)]. *)
Definition isinstance_dict (v : pyval) : bool :=
  match v with PDict _ => true | _ => false end.

(** [key in v], for the mappings the client tests. *)
Definition contains (v : pyval) (key : string) : bool :=
  match v with PDict d => bool_decide (is_Some (d !! key)) | _ => false end.

(** [v == 'literal']. *)
Definition eq_str (v : pyval) (lit : str) : bool :=
  match v with PStr s => bool_decide (s = lit) | _ => false end.

(** [d.get(key, dflt)] on a dict. *)
Definition dict_get (d : gmap string pyval) (key : string) (dflt : pyval)
  : pyval :=
  default dflt (d !! key).

(** [v.get(key, dflt)] on any value: only mappings have the method. *)
Definition get (v : pyval) (key : string) (dflt : pyval) : result pyval :=
  match v with
  | PDict d => mret (dict_get d key dflt)
  | _ => raise AttributeError []
  end.

(** The lookup behind [get] on the mappings the feed parser builds (its
    [FeedParserDict]): a mapping without "updated" answers that key with
    its "published", if it has one; every other key the client reads is
    looked up as in a [dict]. *)
Definition feed_lookup (d : gmap string pyval) (key : string)
  : option pyval :=
  if bool_decide (key = "updated") then
    match d !! "updated" with
    | Some v => Some v
    | None => d !! "published"
    end
  else d !! key.

(** [entry.get(key, dflt)] on an entry of the parsed feed. *)
Definition entry_get (v : pyval) (key : string) (dflt : pyval)
  : result pyval :=
  match v with
  | PDict d => mret (default dflt (feed_lookup d key))
  | _ => raise AttributeError []
  end.

(** [v.key]: attribute access. *)
Definition getattr (v : pyval) (key : string) : result pyval :=
  match v with
  | PDict d | PObj d =>
      match d !! key with
      | Some x => mret x
      | None => raise AttributeError []
      end
  | _ => raise AttributeError []
  end.

(** The items a [for] loop (or comprehension) draws from [v]. *)
Definition iter (v : pyval) : result (list pyval) :=
  match v with
  | PList l => mret l
  | PStr s => mret ((λ c, PStr [c]) <$> s)
  | PDict d => mret ((λ kv, PStr (u kv.1)) <$> map_to_list d)
  | _ => raise TypeError []
  end.

(** [v[0]]. *)
Definition getitem0 (v : pyval) : result pyval :=
  match v with
  | PList (x :: _) => mret x
  | PList [] => raise IndexError []
  | PStr (c :: _) => mret (PStr [c])
  | PStr [] => raise IndexError []
  | PDict _ => raise KeyError []
  | _ => raise TypeError []
  end.

(** The receiver of a [str] method call. *)
Definition as_str (v : pyval) : result str :=
  match v with PStr s => mret s | _ => raise AttributeError [] end.

End Py.

(** ** Entry normalisation: [ArxivClient._clean_text], [ArxivClient._parse_entry] *)

(** The dictionary [_parse_entry] returns, one field per key. *)
Module Paper.
Import PyStr Py.

Record t := Make {
  id : str;
  title : str;
  authors : list pyval;
  categories : list pyval;
  published : pyval;
  updated : pyval;
  summary : str;
  comment : str;
  journal_ref : pyval;
  doi : pyval;
  primary_category : pyval;
  pdf_url : pyval;
  html_url : pyval
}.
End Paper.

Module Entry.
Import PyStr Py.

(** [_clean_text]: [" ".join(text.split())]. *)
Definition _clean_text (text : pyval) : result str :=
  s ← as_str text;
  mret (join (u " ") (split_ws s)).

(** One iteration of the loop over [entry.get('links', [])]; the state is
    [(pdf_url, html_url)]. *)
Definition link_step (urls : pyval * pyval) (link : pyval) : pyval * pyval :=
  match link with
  | PDict d =>
      if eq_str (dict_get d "type" PNone) (u "application/pdf")
      then (dict_get d "href" PNone, urls.2)
      else if eq_str (dict_get d "type" PNone) (u "text/html")
      then (urls.1, dict_get d "href" PNone)
      else urls
  | _ => urls
  end.

Definition scan_links (links : list pyval) : pyval * pyval :=
  fold_left link_step links (PNone, PNone).

(** One iteration of the loops over authors ([key] is ["name"]) and tags
    ([key] is ["term"]); the state is the list built with [append]. *)
Definition collect_step (key : string) (acc : list pyval) (item : pyval)
  : list pyval :=
  match item with
  | PDict d =>
      match d !! key with
      | Some v => acc ++ [v]
      | None => acc
      end
  | PObj attrs =>
      match attrs !! key with
      | Some v => acc ++ [v]
      | None => acc
      end
  | _ => acc
  end.

Definition collect (key : string) (items : list pyval) : list pyval :=
  fold_left (collect_step key) items [].

(** [entry.get('id', '').split("/abs/")[-1].rstrip()]. *)
Definition extract_id (entry : pyval) : result str :=
  v ← entry_get entry "id" (PStr []);
  s ← as_str v;
  mret (rstrip (last_piece (split (u "/abs/") s))).

(** [_parse_entry]. *)
Definition _parse_entry (entry : pyval) : result Paper.t :=
  links ← entry_get entry "links" (PList []) ≫= iter;
  let '(pdf_url, html_url) := scan_links links in
  author_items ← entry_get entry "authors" (PList []) ≫= iter;
  let authors := collect "name" author_items in
  tag_items ← entry_get entry "tags" (PList []) ≫= iter;
  let categories := collect "term" tag_items in
  id ← extract_id entry;
  title ← entry_get entry "title" (PStr []) ≫= _clean_text;
  published ← entry_get entry "published" (PStr []);
  updated ← entry_get entry "updated" (PStr []);
  summary ← entry_get entry "summary" (PStr []) ≫= _clean_text;
  comment ← entry_get entry "arxiv_comment" (PStr []) ≫= _clean_text;
  journal_ref ← entry_get entry "arxiv_journal_ref" (PStr []);
  doi ← entry_get entry "arxiv_doi" (PStr []);
  primary ← entry_get entry "arxiv_primary_category" (PDict ∅);
  primary_category ← get primary "term" PNone;
  mret {| Paper.id := id; Paper.title := title;
          Paper.authors := authors; Paper.categories := categories;
          Paper.published := published; Paper.updated := updated;
          Paper.summary := summary; Paper.comment := comment;
          Paper.journal_ref := journal_ref; Paper.doi := doi;
          Paper.primary_category := primary_category;
          Paper.pdf_url := pdf_url; Paper.html_url := html_url |}.

End Entry.

(** ** The client: rate gate, [search], [get_paper] *)

Module Client.
Import PyStr Py Entry.

(** [timedelta(seconds=3)], in microseconds. *)
Definition interval : Z := 3000000.

(** Lines 28-33 of [_wait_for_rate_limit]: the time to sleep, if any, at
    clock reading [now] when the stored timestamp is [last].  The source
    computes the amount as the float [3 - elapsed.total_seconds()]; here it
    is the exact difference. *)
Definition remaining_wait (last : option Z) (now : Z) : option Z :=
  match last with
  | Some l =>
      let elapsed := now - l in
      if elapsed <? interval then Some (interval - elapsed) else None
  | None => None
  end.

(** What the client does to the outside, in order. *)
Inductive event :=
| EvSleep (d : Z)
| EvStamp (t : Z)
| EvGet (url : str) (params : list (string * pyval)).

(** The client ([self._last_request]) and its surroundings: the clock
    [datetime.now()] reads, and the events so far, oldest first. *)
Record world := World {
  clock : Z;
  last_request : option Z;
  trace : list event
}.

(** An [httpx] response: status, body, and the text of the
    [HTTPStatusError] that [raise_for_status] raises for it. *)
Record response := Response {
  status_code : Z;
  text : str;
  status_error : str
}.

Inductive http_outcome :=
| HttpRaises (cause : str)
| HttpResponds (r : response).

(** What the surroundings decide during one call: how long the call
    waits for the lock, how much longer than asked a sleep lasts, how long
    the request takes and how it ends. *)
Record env := Env {
  lock_wait : Z;
  oversleep : Z;
  latency : Z;
  outcome : http_outcome
}.

(** Computations that read and update the world and may raise. *)
Definition M (A : Type) : Type := world → result A * world.

#[export] Instance M_ret : MRet M := λ A x w, (inr x, w).
#[export] Instance M_bind : MBind M := λ A B f m w,
  match m w with
  | (inl e, w') => (inl e, w')
  | (inr x, w') => f x w'
  end.

Definition lift {A} (r : result A) : M A := λ w, (r, w).
Definition throw {A} (c : exc_class) (msg : str) : M A := lift (raise c msg).

Definition advance (d : Z) : M unit := λ w,
  (inr (), World (clock w + d) (last_request w) (trace w)).
Definition emit (ev : event) : M unit := λ w,
  (inr (), World (clock w) (last_request w) (trace w ++ [ev])).
Definition datetime_now : M Z := λ w, (inr (clock w), w).
Definition get_last_request : M (option Z) := λ w, (inr (last_request w), w).
Definition set_last_request (t : Z) : M unit := λ w,
  (inr (), World (clock w) (Some t) (trace w ++ [EvStamp t])).

(** [await asyncio.sleep(d)]. *)
Definition asyncio_sleep (e : env) (d : Z) : M unit :=
  emit (EvSleep d);; advance (d + oversleep e).

(** [_wait_for_rate_limit], run by one caller from lock to release. *)
Definition _wait_for_rate_limit (e : env) : M unit :=
  advance (lock_wait e);;
  last ← get_last_request;
  now ← datetime_now;
  match remaining_wait last now with
  | Some d => asyncio_sleep e d
  | None => mret ()
  end;;
  now ← datetime_now;
  set_last_request now.

(** [try: body except httpx.HTTPError as e: handler(str(e))]. *)
Definition except_http_error {A} (body : M A) (handler : str → M A) : M A :=
  λ w,
    match body w with
    | (inl e, w') =>
        match exc_type e with
        | HTTPError => handler (exc_msg e) w'
        | _ => (inl e, w')
        end
    | r => r
    end.

Definition base_url : str := u "http://export.arxiv.org/api/query".

(** [await client.get(self.base_url, params=params)]. *)
Definition client_get (e : env) (url : str) (params : list (string * pyval))
  : M response :=
  emit (EvGet url params);;
  advance (latency e);;
  match outcome e with
  | HttpRaises cause => throw HTTPError cause
  | HttpResponds r => mret r
  end.

(** [response.raise_for_status()]: raises for a status outside 2xx. *)
Definition raise_for_status (r : response) : M unit :=
  if (200 <=? status_code r) && (status_code r <? 300)
  then mret ()
  else throw HTTPError (status_error r).

Definition invalid_response : str := u "Invalid response from arXiv API".
Definition http_error (cause : str) : str := u "arXiv API HTTP error: " ++ cause.
Definition paper_not_found (paper_id : str) : str :=
  u "Paper not found: " ++ paper_id.

Section WithParser.

(** [feedparser.parse], a library outside the repository. *)
Variable feedparser_parse : str → pyval.

Definition search_params (query : str) (max_results : Z)
  : list (string * pyval) :=
  [("search_query", PStr query);
   ("max_results", PInt max_results);
   ("sortBy", PStr (u "submittedDate"));
   ("sortOrder", PStr (u "descending"))].

(** [search]. *)
Definition search (e : env) (query : str) (max_results : Z)
  : M (list Paper.t) :=
  _wait_for_rate_limit e;;
  let max_results := Z.min max_results 2000 in
  let params := search_params query max_results in
  except_http_error
    (response ← client_get e base_url params;
     raise_for_status response;;
     let feed := feedparser_parse (text response) in
     if negb (isinstance_dict feed) || negb (contains feed "entries")
     then throw ValueError invalid_response
     else
       entries ← lift (get feed "entries" PNone);
       if negb (truthy entries)
       then mret []
       else
         items ← lift (getattr feed "entries" ≫= iter);
         lift (mapM _parse_entry items))
    (λ cause, throw ValueError (http_error cause)).

Definition get_paper_params (paper_id : str) : list (string * pyval) :=
  [("id_list", PStr paper_id); ("max_results", PInt 1)].

(** [get_paper]. *)
Definition get_paper (e : env) (paper_id : str) : M Paper.t :=
  _wait_for_rate_limit e;;
  let params := get_paper_params paper_id in
  except_http_error
    (response ← client_get e base_url params;
     raise_for_status response;;
     let feed := feedparser_parse (text response) in
     if negb (isinstance_dict feed) || negb (contains feed "entries")
     then throw ValueError invalid_response
     else
       entries ← lift (get feed "entries" PNone);
       if negb (truthy entries)
       then throw ValueError (paper_not_found paper_id)
       else
         first ← lift (getattr feed "entries" ≫= getitem0);
         lift (_parse_entry first))
    (λ cause, throw ValueError (http_error cause)).

End WithParser.

(** [ArxivClient()] at clock reading [now]. *)
Definition init (now : Z) : world := World now None [].

End Client.

(** ** The rate gate under concurrency

    Several tasks run [_wait_for_rate_limit] on one client.  A task moves
    through the lines of the method; the scheduler interleaves the tasks in
    any order, and time passes between any two moves.  The clock never
    runs backwards, and a sleeping task is not resumed before its time. *)

Module Gate.
Import Client.

(** Where a task is in [_wait_for_rate_limit]. *)
Inductive pc :=
| Idle                  (* before [async with self._lock] *)
| Entered               (* lock held, before line 28 *)
| Sleeping (until : Z)  (* in [asyncio.sleep], line 33 *)
| Stamping              (* before line 34 *)
| Done.                 (* lock released, returned *)

Record state := State {
  clock : Z;
  last_request : option Z;
  lock : option nat;          (* the task holding [self._lock] *)
  tasks : list pc;
  dispatched : list Z         (* the timestamps stored, oldest first *)
}.

Definition in_critical (p : pc) : bool :=
  match p with Entered | Sleeping _ | Stamping => true | _ => false end.

Inductive label :=
| Tick (d : Z)
| Lock (i : nat)
| Check (i : nat)
| Wake (i : nat)
| Stamp (i : nat).

Definition set_task (i : nat) (p : pc) (s : state) : state :=
  State (clock s) (last_request s) (lock s) (<[i := p]> (tasks s))
        (dispatched s).

(** One move; [None] when the move is not enabled. *)
Definition step (l : label) (s : state) : option state :=
  match l with
  | Tick d =>
      if decide (0 ≤ d)
      then Some (State (clock s + d) (last_request s) (lock s) (tasks s)
                       (dispatched s))
      else None
  | Lock i =>
      match tasks s !! i, lock s with
      | Some Idle, None =>
          Some (State (clock s) (last_request s) (Some i)
                      (<[i := Entered]> (tasks s)) (dispatched s))
      | _, _ => None
      end
  | Check i =>
      match tasks s !! i with
      | Some Entered =>
          match remaining_wait (last_request s) (clock s) with
          | Some d => Some (set_task i (Sleeping (clock s + d)) s)
          | None => Some (set_task i Stamping s)
          end
      | _ => None
      end
  | Wake i =>
      match tasks s !! i with
      | Some (Sleeping until) =>
          if decide (until ≤ clock s)
          then Some (set_task i Stamping s)
          else None
      | _ => None
      end
  | Stamp i =>
      match tasks s !! i with
      | Some Stamping =>
          Some (State (clock s) (Some (clock s)) None
                      (<[i := Done]> (tasks s))
                      (dispatched s ++ [clock s]))
      | _ => None
      end
  end.

Fixpoint run (ls : list label) (s : state) : option state :=
  match ls with
  | [] => Some s
  | l :: ls' =>
      match step l s with
      | Some s' => run ls' s'
      | None => None
      end
  end.

(** [n] tasks about to call the gate of a client whose stored timestamp
    is [last], at clock reading [now]. *)
Definition init (n : nat) (now : Z) (last : option Z) : state :=
  State now last None (replicate n Idle) [].



End Gate.

(** ** Notions used to state the properties *)

Module Spec.
Import PyStr Py Entry Client.

(** *** Text *)

(** Written from the specification's words, "collapse all whitespace runs
    (including newlines) to single spaces and trim": every whitespace
    character followed by another is dropped, the last of a run becomes
    one space. *)
Fixpoint collapse_runs (s : str) : str :=
  match s with
  | [] => []
  | c :: s' =>
      if isspace c
      then match s' with
           | c' :: _ =>
               if isspace c' then collapse_runs s'
               else space :: collapse_runs s'
           | [] => [space]
           end
      else c :: collapse_runs s'
  end.

Definition trim (s : str) : str := rstrip (lstrip s).

Definition collapse_and_trim (s : str) : str := trim (collapse_runs s).

(** No two adjacent whitespace characters. *)
Definition no_ws_run (s : str) : Prop :=
  ∀ i c d, s !! i = Some c → s !! S i = Some d →
           isspace c = true → isspace d = true → False.

Definition no_ws (s : str) : Prop := Forall (λ c, isspace c = false) s.
Definition all_ws (s : str) : Prop := Forall (λ c, isspace c = true) s.

(** The marker of the abstract-page path. *)
Definition abs_marker : str := u "/abs/".

(** *** Entries *)

(** The string under [key], or the default [''] of [entry.get(key, '')]. *)
Definition str_of (v : pyval) : str :=
  match v with PStr s => s | _ => [] end.

Definition str_field (d : gmap string pyval) (key : string) : str :=
  str_of (dict_get d key (PStr [])).

(** The items under [key], or the default [[]] of [entry.get(key, [])]. *)
Definition items_of (v : pyval) : list pyval :=
  match iter v with inr l => l | inl _ => [] end.

Definition list_field (d : gmap string pyval) (key : string) : list pyval :=
  items_of (dict_get d key (PList [])).

Definition iterable (v : pyval) : bool :=
  match v with PList _ | PStr _ | PDict _ => true | _ => false end.

Definition is_str (v : pyval) : bool :=
  match v with PStr _ => true | _ => false end.

(** The entries [_parse_entry] normalises without raising: what it
    iterates over is iterable, what it calls string methods on is a
    string, and the primary category is a mapping. *)
Definition well_typed (d : gmap string pyval) : bool :=
  iterable (dict_get d "links" (PList []))
  && iterable (dict_get d "authors" (PList []))
  && iterable (dict_get d "tags" (PList []))
  && is_str (dict_get d "id" (PStr []))
  && is_str (dict_get d "title" (PStr []))
  && is_str (dict_get d "summary" (PStr []))
  && is_str (dict_get d "arxiv_comment" (PStr []))
  && isinstance_dict (dict_get d "arxiv_primary_category" (PDict ∅)).

(** The value an author or tag item contributes: that of its [key], be
    the item a mapping or an object with that attribute. *)
Definition named (key : string) (item : pyval) : option pyval :=
  match item with
  | PDict d | PObj d => d !! key
  | _ => None
  end.

(** The record of a well-typed entry, field by field. *)
Definition normalised (d : gmap string pyval) : Paper.t :=
  {| Paper.id := rstrip (last_piece (split abs_marker (str_field d "id")));
     Paper.title := join (u " ") (split_ws (str_field d "title"));
     Paper.authors := collect "name" (list_field d "authors");
     Paper.categories := collect "term" (list_field d "tags");
     Paper.published := dict_get d "published" (PStr []);
     Paper.updated :=
       match d !! "updated" with
       | Some v => v
       | None => dict_get d "published" (PStr [])
       end;
     Paper.summary := join (u " ") (split_ws (str_field d "summary"));
     Paper.comment := join (u " ") (split_ws (str_field d "arxiv_comment"));
     Paper.journal_ref := dict_get d "arxiv_journal_ref" (PStr []);
     Paper.doi := dict_get d "arxiv_doi" (PStr []);
     Paper.primary_category :=
       match dict_get d "arxiv_primary_category" (PDict ∅) with
       | PDict c => dict_get c "term" PNone
       | _ => PNone
       end;
     Paper.pdf_url := (scan_links (list_field d "links")).1;
     Paper.html_url := (scan_links (list_field d "links")).2 |}.

Definition pdf_type : str := u "application/pdf".
Definition html_type : str := u "text/html".

(** A link (a mapping) of media type [ty]. *)
Definition is_link_of (ty : str) (link : pyval) : Prop :=
  match link with
  | PDict d => eq_str (dict_get d "type" PNone) ty = true
  | _ => False
  end.

#[export] Instance is_link_of_dec ty link : Decision (is_link_of ty link).
Proof. destruct link; simpl; apply _. Defined.

Definition href (link : pyval) : pyval :=
  match link with PDict d => dict_get d "href" PNone | _ => PNone end.

(** The address of the first, and of the last, link of type [ty]. *)
Definition first_href (ty : str) (links : list pyval) : pyval :=
  from_option href PNone (head (filter (is_link_of ty) links)).

Definition last_href (ty : str) (links : list pyval) : pyval :=
  from_option href PNone (last (filter (is_link_of ty) links)).

(** *** Calls and failures *)

Definition success (r : response) : bool :=
  (200 <=? status_code r) && (status_code r <? 300).

(** The feed has no usable entry list, by the test both operations make. *)
Definition lacks_entries (feed : pyval) : bool :=
  negb (isinstance_dict feed) || negb (contains feed "entries").

(** The three failures the operations report. *)
Inductive failure :=
| Transport (cause : str)
| Malformed
| NotFound (paper_id : str).

Definition failure_exn (f : failure) : exn :=
  match f with
  | Transport cause => Exn ValueError (http_error cause)
  | Malformed => Exn ValueError invalid_response
  | NotFound paper_id => Exn ValueError (paper_not_found paper_id)
  end.

(** The failures told apart by kind. *)
Definition same_kind (f g : failure) : Prop :=
  match f, g with
  | Transport _, Transport _ | Malformed, Malformed
  | NotFound _, NotFound _ => True
  | _, _ => False
  end.

(** The cause [httpx] reports, when the request does not end in a 2xx
    response. *)
Definition transport_cause (o : http_outcome) : option str :=
  match o with
  | HttpRaises cause => Some cause
  | HttpResponds r => if success r then None else Some (status_error r)
  end.

(** A call of either operation, and its effect: the exception raised, if
    any, and the world after it. *)
Inductive call :=
| Search (query : str) (max_results : Z)
| GetPaper (paper_id : str).

Definition perform (parse : str → pyval) (e : env) (c : call) (w : world)
  : option exn * world :=
  match c with
  | Search query max_results =>
      let '(r, w') := search parse e query max_results w in
      (match r with inl x => Some x | inr _ => None end, w')
  | GetPaper paper_id =>
      let '(r, w') := get_paper parse e paper_id w in
      (match r with inl x => Some x | inr _ => None end, w')
  end.

(** The clock reading a call stores, and the sleep it takes before. *)
Definition stamp_time (e : env) (w : world) : Z :=
  let now := clock w + lock_wait e in
  match remaining_wait (last_request w) now with
  | Some d => now + d + oversleep e
  | None => now
  end.

Definition sleeps (e : env) (w : world) : list event :=
  match remaining_wait (last_request w) (clock w + lock_wait e) with
  | Some d => [EvSleep d]
  | None => []
  end.

(** The world after a call that sent [params]. *)
Definition after_call (e : env) (params : list (string * pyval)) (w : world)
  : world :=
  World (stamp_time e w + latency e) (Some (stamp_time e w))
        (trace w ++ sleeps e w
                 ++ [EvStamp (stamp_time e w); EvGet base_url params]).

(** What each operation makes of the way its request ends. *)
Definition search_reply (parse : str → pyval) (o : http_outcome)
  : result (list Paper.t) :=
  match o with
  | HttpRaises cause => raise ValueError (http_error cause)
  | HttpResponds r =>
      if success r then
        let feed := parse (text r) in
        if lacks_entries feed then raise ValueError invalid_response
        else
          entries ← get feed "entries" PNone;
          if negb (truthy entries) then mret []
          else (getattr feed "entries" ≫= iter) ≫= mapM _parse_entry
      else raise ValueError (http_error (status_error r))
  end.

Definition get_paper_reply (parse : str → pyval) (paper_id : str)
  (o : http_outcome) : result Paper.t :=
  match o with
  | HttpRaises cause => raise ValueError (http_error cause)
  | HttpResponds r =>
      if success r then
        let feed := parse (text r) in
        if lacks_entries feed then raise ValueError invalid_response
        else
          entries ← get feed "entries" PNone;
          if negb (truthy entries)
          then raise ValueError (paper_not_found paper_id)
          else (getattr feed "entries" ≫= getitem0) ≫= _parse_entry
      else raise ValueError (http_error (status_error r))
  end.

(** The parameters a call sends. *)
Definition params_of (c : call) : list (string * pyval) :=
  match c with
  | Search query max_results =>
      search_params query (Z.min max_results 2000)
  | GetPaper paper_id => get_paper_params paper_id
  end.

(** The classes of the errors the interpreter raises on ill-typed values. *)
Definition of_interpreter (c : exc_class) : bool :=
  match c with
  | ValueError | HTTPError => false
  | TypeError | AttributeError | KeyError | IndexError => true
  end.

(** An expression that raises, if anything, an error of the interpreter. *)
Definition interp_only {A} (m : result A) : Prop :=
  ∀ x, m = inl x → of_interpreter (exc_type x) = true.

(** Requests that get an empty 200 response, and that get none. *)
Definition empty_body : env := Env 0 0 0 (HttpResponds (Response 200 [] [])).
Definition unreachable : env := Env 0 0 0 (HttpRaises (u "connection refused")).

Definition is_sleep (ev : event) : bool :=
  match ev with EvSleep _ => true | _ => false end.

(** What [feedparser.parse] returns for a body in which it finds no feed
    data: its result mapping, with the [bozo] flag and no entries. *)
Definition no_data_fields : gmap string pyval :=
  <[ "bozo" := PBool true ]>
  (<[ "entries" := PList [] ]>
   (<[ "feed" := PDict ∅ ]>
    (<[ "headers" := PDict ∅ ]> ∅))).

Definition feedparser_no_data : pyval := PDict no_data_fields.

(** *** The gate's invariant *)




(** The moves of one caller whose surroundings are [e], from world [w]. *)
Definition moves_of (e : env) (w : world) : list Gate.label :=
  [Gate.Tick (lock_wait e); Gate.Lock 0; Gate.Check 0]
  ++ match remaining_wait (last_request w) (clock w + lock_wait e) with
     | Some d => [Gate.Tick (d + oversleep e); Gate.Wake 0]
     | None => []
     end
  ++ [Gate.Stamp 0].

End Spec.

(** ** Sample values *)

Module Examples.
Import PyStr Py Entry Client Spec.

Definition link (ty url : string) : pyval :=
  PDict (<[ "type" := PStr (u ty) ]> {[ "href" := PStr (u url) ]}).

Definition author (name : string) : pyval :=
  PDict {[ "name" := PStr (u name) ]}.

(** An entry with two PDF links. *)
Definition two_pdf_links : list pyval :=
  [link "application/pdf" "http://arxiv.org/pdf/2103.08220v1";
   link "application/pdf" "http://arxiv.org/pdf/2103.08220v2"].

Definition two_pdf_entry : pyval :=
  PDict {[ "links" := PList two_pdf_links ]}.

(** An entry as the feed gives it. *)
Definition sample_links : list pyval :=
  [link "text/html" "http://arxiv.org/abs/2103.08220v2";
   link "application/pdf" "http://arxiv.org/pdf/2103.08220v2"].

Definition sample_fields : gmap string pyval :=
  <[ "id" := PStr (u "http://arxiv.org/abs/2103.08220v2") ]>
  (<[ "title" := PStr (u "Foo" ++ [newline; newline] ++ u "  Bar   Baz") ]>
   (<[ "summary" := PStr (u " An  abstract ") ]>
    (<[ "authors" := PList [author "A. Bengio"; author "Y. LeCun"] ]>
     (<[ "tags" := PList [PObj {[ "term" := PStr (u "cs.AI") ]}; PNone] ]>
      {[ "links" := PList sample_links ]})))).

(** Two tasks at the gate: the second takes the lock one second after
    the first has left, and sleeps out the remaining two. *)
Definition two_callers : list Gate.label :=
  [Gate.Lock 0; Gate.Check 0; Gate.Stamp 0; Gate.Tick 1000000;
   Gate.Lock 1; Gate.Check 1; Gate.Tick 2000000; Gate.Wake 1; Gate.Stamp 1].

End Examples.

(** ** Further notions *)

Module More.
Import PyStr Py Entry Client Spec.

(** The characters of [s] that are not whitespace, in order. *)
Definition nonspace (s : list char) : list char :=
  filter (λ c, isspace c = false) s.

(** The errors of a call on a value of the wrong type. *)
Definition attr_or_type (c : exc_class) : bool :=
  match c with
  | AttributeError | TypeError => true
  | _ => false
  end.

(** An expression that raises, if anything, an exception of a class in [P]. *)
Definition raises_within (P : exc_class → bool) {A} (m : result A) : Prop :=
  ∀ x, m = inl x → P (exc_type x) = true.

(** A feed entry that [_parse_entry] normalises. *)
Definition normalisable (entry : pyval) : Prop :=
  ∃ d, entry = PDict d ∧ well_typed d = true.

(** A 2xx response whose body the parser turns into a feed with the
    entry list [entries]. *)
Definition feed_of (parse : str → pyval) (e : env) (entries : pyval) : Prop :=
  ∃ r d, outcome e = HttpResponds r ∧ success r = true
         ∧ parse (text r) = PDict d ∧ d !! "entries" = Some entries.

(** A parser that finds the entries [entries] in every body. *)
Definition parse_as (entries : pyval) : str → pyval :=
  λ _, PDict {[ "entries" := entries ]}.

(** *** The gate *)

Definition is_done (p : Gate.pc) : bool :=
  match p with Gate.Done => true | _ => false end.

Definition is_idle (p : Gate.pc) : bool :=
  match p with Gate.Idle => true | _ => false end.

(** The callers that have returned, and those still on their way. *)
Fixpoint finished (ts : list Gate.pc) : nat :=
  match ts with
  | [] => 0
  | p :: ts' => (if is_done p then 1 else 0) + finished ts'
  end.

Fixpoint pending (ts : list Gate.pc) : nat :=
  match ts with
  | [] => 0
  | p :: ts' => (if is_done p then 0 else 1) + pending ts'
  end.

(** The lock is held by a task inside the critical section, and by no
    other; and one timestamp is stored per caller that has returned. *)
Definition lock_inv (s : Gate.state) : Prop :=
  (∀ i p, Gate.tasks s !! i = Some p → Gate.in_critical p = true →
          Gate.lock s = Some i)
  ∧ (∀ i, Gate.lock s = Some i →
          ∃ p, Gate.tasks s !! i = Some p ∧ Gate.in_critical p = true)
  ∧ length (Gate.dispatched s) = finished (Gate.tasks s).

End More.

(** ** The tool shell: [call_tool] of [server.py] *)

From Stdlib Require Import DecimalString.

Module Server.
Import PyStr Py Entry Client.

Definition nl : str := [newline].

(** [str(n)] of an [int]. *)
Definition decimal (n : Z) : str := u (NilZero.string_of_int (Z.to_int n)).

(** [d[key]]; the text of a [KeyError] is the [repr] of the key. *)
Definition subscript (d : gmap string pyval) (key : string) : result pyval :=
  match d !! key with
  | Some v => mret v
  | None => raise KeyError (u "'" ++ u key ++ u "'")
  end.

(** [sep.join(items)]: every item has to be a string. *)
Fixpoint strs_of (items : list pyval) : result (list str) :=
  match items with
  | [] => mret []
  | PStr s :: rest => ss ← strs_of rest; mret (s :: ss)
  | _ :: _ => raise TypeError []
  end.

Definition str_join (sep : str) (items : list pyval) : result str :=
  ss ← strs_of items; mret (join sep ss).

(** [types.TextContent(type="text", text=..., isError=...)]; [isError]
    is [false] where the source does not pass it. *)
Record content := Content { text : str; isError : bool }.

(** Modelled from the spec: the taxonomy store ([update_taxonomy.py] is
    not among the sources): a mapping, in insertion order, from a primary
    category code to its name and its subcategories, themselves a
    mapping from code to description. *)
Record category := Category {
  name : str;
  subcategories : list (str * str)
}.

Definition taxonomy : Type := list (str * category).

(** What the surroundings decide during one tool call: those of the
    client, and how [load_taxonomy()] and [update_taxonomy_file()] end. *)
Record services := Services {
  client : env;
  load_taxonomy : result taxonomy;
  update_taxonomy_file : result taxonomy
}.

(** [try: body except Exception as e: handler(e)]. *)
Definition except_exception {A} (body : M A) (handler : exn → M A) : M A :=
  λ w,
    match body w with
    | (inl e, w') => handler e w'
    | r => r
    end.

Section WithBuiltins.

(** [feedparser.parse]; [int] on a string; [repr] of lists, mappings and
    objects: outside the repository. *)
Variable feedparser_parse : str → pyval.
Variable int_of_str : str → result Z.
Variable repr_other : pyval → str.

(** [str(v)], as an f-string formats [v]. *)
Definition py_str (v : pyval) : str :=
  match v with
  | PStr s => s
  | PNone => u "None"
  | PBool true => u "True"
  | PBool false => u "False"
  | PInt n => decimal n
  | _ => repr_other v
  end.

(** [int(v)]. *)
Definition py_int (v : pyval) : result Z :=
  match v with
  | PInt n => mret n
  | PBool b => mret (if b then 1 else 0)
  | PStr s => int_of_str s
  | _ => raise TypeError []
  end.

(** [arxiv_client.search(query, max_results)], the query being whatever
    value the caller passed. *)
Definition search_any (e : env) (query : pyval) (max_results : Z)
  : M (list Paper.t) :=
  _wait_for_rate_limit e;;
  let max_results := Z.min max_results 2000 in
  let params :=
    [("search_query", query);
     ("max_results", PInt max_results);
     ("sortBy", PStr (u "submittedDate"));
     ("sortOrder", PStr (u "descending"))] in
  except_http_error
    (response ← client_get e base_url params;
     raise_for_status response;;
     let feed := feedparser_parse (Client.text response) in
     if negb (isinstance_dict feed) || negb (contains feed "entries")
     then throw ValueError invalid_response
     else
       entries ← lift (get feed "entries" PNone);
       if negb (truthy entries)
       then mret []
       else
         items ← lift (getattr feed "entries" ≫= iter);
         lift (mapM _parse_entry items))
    (λ cause, throw ValueError (http_error cause)).

(** [arxiv_client.get_paper(paper_id)], likewise. *)
Definition get_paper_any (e : env) (paper_id : pyval) : M Paper.t :=
  _wait_for_rate_limit e;;
  let params := [("id_list", paper_id); ("max_results", PInt 1)] in
  except_http_error
    (response ← client_get e base_url params;
     raise_for_status response;;
     let feed := feedparser_parse (Client.text response) in
     if negb (isinstance_dict feed) || negb (contains feed "entries")
     then throw ValueError invalid_response
     else
       entries ← lift (get feed "entries" PNone);
       if negb (truthy entries)
       then throw ValueError (u "Paper not found: " ++ py_str paper_id)
       else
         first ← lift (getattr feed "entries" ≫= getitem0);
         lift (_parse_entry first))
    (λ cause, throw ValueError (http_error cause)).

(** The lines of one search result, numbered [i]. *)
Definition result_lines (i : Z) (paper : Paper.t) : result str :=
  authors ← str_join (u ", ") (Paper.authors paper);
  mret (decimal i ++ u ". " ++ Paper.title paper ++ nl
        ++ u "   Authors: " ++ authors ++ nl
        ++ u "   ID: " ++ Paper.id paper ++ nl
        ++ u "   Published: " ++ py_str (Paper.published paper) ++ nl
        ++ nl).

(** The loop over [enumerate(papers, 1)]; [acc] is [result]. *)
Fixpoint format_results (i : Z) (acc : str) (papers : list Paper.t)
  : result str :=
  match papers with
  | [] => mret acc
  | paper :: rest =>
      lines ← result_lines i paper;
      format_results (i + 1) (acc ++ lines) rest
  end.

Definition search_header : str := u "Search Results:" ++ nl ++ nl.

(** The text of [get_paper_data]. *)
Definition format_paper (paper : Paper.t) : result str :=
  authors ← str_join (u ", ") (Paper.authors paper);
  let result :=
    u "Title: " ++ Paper.title paper ++ nl ++ nl
    ++ u "Authors: " ++ authors ++ nl
    ++ u "Published: " ++ py_str (Paper.published paper) ++ nl
    ++ u "Last Updated: " ++ py_str (Paper.updated paper) ++ nl ++ nl in
  let result :=
    if truthy (Paper.journal_ref paper)
    then result ++ u "Journal Reference: "
                ++ py_str (Paper.journal_ref paper) ++ nl
    else result in
  let result :=
    if truthy (PStr (Paper.comment paper))
    then result ++ u "Comment: " ++ Paper.comment paper ++ nl
    else result in
  let result := result ++ nl ++ u "Abstract:" ++ nl in
  let result := result ++ Paper.summary paper in
  let result := result ++ nl ++ nl ++ u "Available Formats:" ++ nl in
  let result :=
    if truthy (Paper.pdf_url paper)
    then result ++ u "- PDF: " ++ py_str (Paper.pdf_url paper) ++ nl
    else result in
  let result :=
    if truthy (Paper.html_url paper)
    then result ++ u "- HTML: " ++ py_str (Paper.html_url paper) ++ nl
    else result in
  mret result.

(** One iteration of the loop of [list_categories] over the taxonomy. *)
Definition category_lines (primary : str) (data : category) : str :=
  primary ++ u ": " ++ name data ++ nl
  ++ fold_left (λ acc '(code, desc),
                  acc ++ u "  " ++ primary ++ u "." ++ code ++ u ": "
                      ++ desc ++ nl)
               (subcategories data) []
  ++ nl.

Definition list_step (primary_filter : pyval) (acc : str)
  (item : str * category) : str :=
  if truthy primary_filter && negb (eq_str primary_filter item.1)
  then acc
  else acc ++ category_lines item.1 item.2.

Definition categories_header : str := u "arXiv Categories:" ++ nl ++ nl.

Definition quote : char := 34%N.

Definition usage : str :=
  nl ++ u "Usage in search:" ++ nl
  ++ u "- Search in specific category: cat:cs.AI" ++ nl
  ++ u "- Combine with other terms: " ++ [quote] ++ u "neural networks"
  ++ [quote] ++ u " AND cat:cs.AI" ++ nl
  ++ u "- Multiple categories: (cat:cs.AI OR cat:cs.LG)" ++ nl
  ++ nl
  ++ u "Note: If categories seem outdated, use the update_categories tool to refresh them."
  ++ nl.

Definition load_failed : str :=
  u "Error loading category taxonomy. Try using update_categories tool to refresh it.".

(** One iteration of the loop of [update_categories]. *)
Definition update_step (acc : str) (item : str * category) : str :=
  acc ++ u "- " ++ item.1 ++ u ": " ++ name item.2 ++ u " ("
      ++ decimal (Z.of_nat (length (subcategories item.2)))
      ++ u " subcategories)" ++ nl.

(** [call_tool]. *)
Definition call_tool (sv : services) (name : str)
  (arguments : gmap string pyval) : M (list content) :=
  except_exception
    (if decide (name = u "search_papers") then
       query ← lift (subscript arguments "query");
       n ← lift (py_int (dict_get arguments "max_results" (PInt 10)));
       let max_results := Z.min n 50 in
       papers ← search_any (client sv) query max_results;
       result ← lift (format_results 1 search_header papers);
       mret [Content result false]
     else if decide (name = u "get_paper_data") then
       paper_id ← lift (subscript arguments "paper_id");
       paper ← get_paper_any (client sv) paper_id;
       result ← lift (format_paper paper);
       mret [Content result false]
     else if decide (name = u "list_categories") then
       match load_taxonomy sv with
       | inl _ => mret [Content load_failed false]
       | inr taxonomy =>
           let primary_filter := dict_get arguments "primary_category" PNone in
           let result :=
             fold_left (list_step primary_filter) taxonomy
                       categories_header in
           mret [Content (result ++ usage) false]
       end
     else if decide (name = u "update_categories") then
       match update_taxonomy_file sv with
       | inr taxonomy =>
           let result :=
             u "Successfully updated category taxonomy." ++ nl ++ nl
             ++ u "Found " ++ decimal (Z.of_nat (length taxonomy))
             ++ u " primary categories:" ++ nl in
           mret [Content (fold_left update_step taxonomy result) false]
       | inl e =>
           mret [Content (u "Error updating taxonomy: " ++ exc_msg e) true]
       end
     else mret [Content (u "Unknown tool: " ++ name) true])
    (λ e, mret [Content (u "Error: " ++ exc_msg e) true]).

End WithBuiltins.

End Server.

(** ** Notions used to state the properties of the shell *)

Module ServerSpec.
Import PyStr Py Entry Client Spec Server.

(** The tools that call the client. *)
Definition calls_client (name : str) : Prop :=
  name = u "search_papers" ∨ name = u "get_paper_data".

(** A computation that, when it returns, returns one content item. *)
Definition one_item (m : M (list content)) : Prop :=
  ∀ w l w', m w = (inr l, w') → ∃ c, l = [c].

(** Every item is a string. *)
Definition all_strings (items : list pyval) : Prop :=
  Forall (λ v, is_str v = true) items.

(** The lines of search result [i], its authors being strings. *)
Definition result_block (repr_other : pyval → str) (i : Z) (paper : Paper.t)
  : str :=
  decimal i ++ u ". " ++ Paper.title paper ++ nl
  ++ u "   Authors: " ++ join (u ", ") (str_of <$> Paper.authors paper) ++ nl
  ++ u "   ID: " ++ Paper.id paper ++ nl
  ++ u "   Published: " ++ py_str repr_other (Paper.published paper) ++ nl
  ++ nl.

(** The blocks of the results from number [i] on. *)
Fixpoint result_blocks (repr_other : pyval → str) (i : Z)
  (papers : list Paper.t) : str :=
  match papers with
  | [] => []
  | paper :: rest =>
      result_block repr_other i paper
      ++ result_blocks repr_other (i + 1) rest
  end.

(** The categories [list_categories] shows under [primary_filter]: all
    of them when the filter is absent or empty, else the one of that
    code. *)
Definition selected (primary_filter : pyval) (item : str * category) : Prop :=
  truthy primary_filter = true → primary_filter = PStr item.1.

#[export] Instance selected_dec primary_filter item :
  Decision (selected primary_filter item).
Proof.
  unfold selected. destruct (truthy primary_filter).
  - destruct primary_filter as [| | |s| | |];
      try (right; intros H; by specialize (H eq_refl)).
    destruct (decide (s = item.1)) as [-> | Hne].
    + by left.
    + right. intros H. specialize (H eq_refl). congruence.
  - left. discriminate.
Defined.

(** A sample taxonomy, and services that load it. *)
Definition sample_taxonomy : taxonomy :=
  [(u "cs", Category (u "Computer Science")
              [(u "AI", u "Artificial Intelligence")]);
   (u "math", Category (u "Mathematics") [])].

Definition sample_services : services :=
  Services empty_body (inr sample_taxonomy)
           (inl (Exn ValueError (u "no network"))).

(** [int] and [repr] where the samples do not need them. *)
Definition no_int : str → result Z := λ _, raise ValueError [].
Definition no_repr : pyval → str := λ _, [].

End ServerSpec.

(** * Properties *)

(** ** Text *)

Module TextFacts.
Import PyStr Spec.

Lemma isspace_space : isspace space = true.
Proof. reflexivity. Qed.

Lemma isspace_newline : isspace newline = true.
Proof. reflexivity. Qed.

Lemma no_ws_snoc cur c : no_ws cur → isspace c = false → no_ws (cur ++ [c]).
Proof. intros Hcur Hc. apply Forall_app; split; [done | by constructor]. Qed.

(** The pieces [split_ws] returns are non-empty and free of whitespace. *)
Lemma split_ws_go_pieces s : ∀ cur,
  no_ws cur → Forall (λ w, w ≠ [] ∧ no_ws w) (split_ws_go cur s).
Proof.
  induction s as [|c s IH]; intros cur Hcur; simpl.
  - destruct cur as [|a cur].
    + apply Forall_nil_2.
    + apply Forall_cons; split; [done | apply Forall_nil_2].
  - destruct (isspace c) eqn:Hc.
    + destruct cur.
      * apply IH. constructor.
      * constructor; [done | apply IH; constructor].
    + apply IH. by apply no_ws_snoc.
Qed.

Lemma join_nil_inv ws :
  Forall (λ w : str, w ≠ [] ∧ no_ws w) ws → join [space] ws = [] → ws = [].
Proof.
  destruct ws as [|w [|w' ws]]; simpl; [done | |].
  - intros Hw ->. by inversion Hw as [|?? [??]].
  - intros Hw Hj. inversion Hw as [|?? [Hne _]]; subst.
    destruct w; [done | discriminate].
Qed.

Lemma join_cons w ws :
  join [space] (w :: ws) =
  match ws with [] => w | _ => w ++ space :: join [space] ws end.
Proof. by destruct ws. Qed.

(** *** [lstrip], [rstrip] *)

Lemma lstrip_no_ws_head c s : isspace c = false → lstrip (c :: s) = c :: s.
Proof. simpl. by intros ->. Qed.

Lemma lstrip_ws_head c s : isspace c = true → lstrip (c :: s) = lstrip s.
Proof. simpl. by intros ->. Qed.

Lemma lstrip_idemp s : lstrip (lstrip s) = lstrip s.
Proof.
  induction s as [|c s IH]; [done |]. simpl.
  destruct (isspace c) eqn:Hc; [done |]. simpl. by rewrite Hc.
Qed.

Lemma rstrip_no_ws s : no_ws s → rstrip s = s.
Proof.
  induction 1 as [|c s Hc _ IH]; [done |]. simpl. rewrite IH, Hc.
  by destruct s.
Qed.

Lemma rstrip_app x y :
  rstrip (x ++ y) = match rstrip y with [] => rstrip x | r => x ++ r end.
Proof.
  induction x as [|c x IH]; simpl.
  - by destruct (rstrip y).
  - rewrite IH. destruct (rstrip y) eqn:Hy; [done |].
    by destruct x.
Qed.

Lemma rstrip_split s : ∃ ws, s = rstrip s ++ ws ∧ all_ws ws.
Proof.
  induction s as [|c s (ws & Hs & Hws)]; simpl.
  - exists []. split; [done | constructor].
  - destruct (rstrip s) as [|b r] eqn:Hr.
    + simpl in Hs. subst ws. destruct (isspace c) eqn:Hc.
      * exists (c :: s). split; [done | by constructor].
      * by exists s.
    + exists ws. split; [| done]. simpl. by rewrite Hs at 1.
Qed.

Lemma rstrip_last s c : last (rstrip s) = Some c → isspace c = false.
Proof.
  revert c. induction s as [|a s IH]; intros c; simpl; [done |].
  destruct (rstrip s) as [|b r] eqn:Hr.
  - destruct (isspace a) eqn:Ha; simpl; [done |]. by intros [= <-].
  - intros H. apply IH. by rewrite <- H.
Qed.

Lemma lstrip_no_ws s : no_ws s → lstrip s = s.
Proof. destruct 1 as [|c s Hc _]; [done |]. by apply lstrip_no_ws_head. Qed.

(** *** [collapse_runs] *)

Lemma collapse_runs_no_ws_head c s :
  isspace c = false → collapse_runs (c :: s) = c :: collapse_runs s.
Proof. intros Hc. simpl. by rewrite Hc. Qed.

Lemma collapse_runs_ws_head s : ∀ c,
  isspace c = true → collapse_runs (c :: s) = space :: lstrip (collapse_runs s).
Proof.
  induction s as [|c' s IH]; intros c Hc.
  - simpl. by rewrite Hc.
  - change (collapse_runs (c :: c' :: s))
      with (if isspace c
            then if isspace c' then collapse_runs (c' :: s)
                 else space :: collapse_runs (c' :: s)
            else c :: collapse_runs (c' :: s)).
    rewrite Hc. destruct (isspace c') eqn:Hc'.
    + rewrite (IH c' Hc'). rewrite lstrip_ws_head by apply isspace_space.
      by rewrite lstrip_idemp.
    + rewrite (collapse_runs_no_ws_head c') by done.
      by rewrite lstrip_no_ws_head.
Qed.

Lemma collapse_runs_no_ws_app cur s :
  no_ws cur → collapse_runs (cur ++ s) = cur ++ collapse_runs s.
Proof.
  induction cur as [|c cur IH]; intros Hcur; [done |].
  inversion Hcur as [|?? Hc Hcur']; subst.
  change ((c :: cur) ++ s) with (c :: (cur ++ s)).
  rewrite collapse_runs_no_ws_head by done. by rewrite IH.
Qed.

(** [" ".join(text.split())] collapses the runs and trims. *)
Lemma join_split_ws_go s : ∀ cur,
  no_ws cur →
  join [space] (split_ws_go cur s) = collapse_and_trim (cur ++ s).
Proof.
  unfold collapse_and_trim, trim.
  induction s as [|c s IH]; intros cur Hcur.
  - rewrite collapse_runs_no_ws_app by done. cbn [collapse_runs].
    rewrite app_nil_r, lstrip_no_ws, rstrip_no_ws by done.
    by destruct cur.
  - simpl. destruct (isspace c) eqn:Hc.
    + rewrite collapse_runs_no_ws_app, collapse_runs_ws_head by done.
      pose proof (IH [] ltac:(constructor)) as IH0. simpl in IH0.
      destruct cur as [|a cur].
      * simpl. rewrite IH0. by rewrite lstrip_idemp.
      * inversion Hcur as [|?? Ha Hcur']; subst.
        rewrite join_cons.
        change (((a :: cur) ++ space :: lstrip (collapse_runs s)))
          with (a :: (cur ++ space :: lstrip (collapse_runs s))).
        rewrite lstrip_no_ws_head by done.
        change (a :: cur ++ space :: lstrip (collapse_runs s))
          with ((a :: cur) ++ ([space] ++ lstrip (collapse_runs s))).
        rewrite rstrip_app, rstrip_app, <- IH0.
        destruct (split_ws_go [] s) eqn:Hsp.
        -- cbn [join]. change (rstrip [space]) with (@nil N).
           by rewrite rstrip_no_ws.
        -- destruct (join [space] (s0 :: l)) eqn:Hj.
           ++ apply join_nil_inv in Hj; [done |].
              rewrite <- Hsp. apply split_ws_go_pieces. constructor.
           ++ done.
    + rewrite IH by (by apply no_ws_snoc). by rewrite <- app_assoc.
Qed.

Lemma clean_text_refines s :
  join (u " ") (split_ws s) = collapse_and_trim s.
Proof. apply (join_split_ws_go s []). constructor. Qed.

(** *** The shape of a cleaned text *)

Lemma join_chars ws :
  Forall (λ w : str, w ≠ [] ∧ no_ws w) ws →
  Forall (λ c, isspace c = false ∨ c = space) (join [space] ws).
Proof.
  induction ws as [|w ws IH]; intros Hws; [constructor |].
  inversion Hws as [|?? [_ Hw] Hws']; subst. rewrite join_cons.
  assert (Forall (λ c, isspace c = false ∨ c = space) w) as Hw'.
  { eapply Forall_impl; [exact Hw | by left]. }
  destruct ws; [done |].
  apply Forall_app; split; [done |]. constructor; [by right | by apply IH].
Qed.

Lemma head_join w ws : w ≠ [] → head (join [space] (w :: ws)) = head w.
Proof. intros Hw. rewrite join_cons. destruct w; [done |]. by destruct ws. Qed.

Lemma no_ws_run_cons c x :
  no_ws_run x →
  (isspace c = false ∨ ∀ d, head x = Some d → isspace d = false) →
  no_ws_run (c :: x).
Proof.
  intros Hx Hc [|i] a b Ha Hb Hsa Hsb.
  - simpl in Ha. injection Ha as <-. destruct Hc as [Hc | Hc]; [congruence |].
    destruct x as [|d x]; [done |]. simpl in Hb. injection Hb as <-.
    specialize (Hc d eq_refl). congruence.
  - exact (Hx i a b Ha Hb Hsa Hsb).
Qed.

Lemma no_ws_run_app w x : no_ws w → no_ws_run x → no_ws_run (w ++ x).
Proof.
  induction w as [|c w IH]; intros Hw Hx; [done |].
  inversion Hw; subst. apply no_ws_run_cons; [by apply IH | by left].
Qed.

Lemma join_no_ws_run ws :
  Forall (λ w : str, w ≠ [] ∧ no_ws w) ws → no_ws_run (join [space] ws).
Proof.
  induction ws as [|w ws IH]; intros Hws.
  - by intros [|?] ???.
  - inversion Hws as [|?? [_ Hw] Hws']; subst. rewrite join_cons.
    destruct ws as [|w' ws].
    + rewrite <- (app_nil_r w). apply no_ws_run_app; [done |].
      by intros [|?] ???.
    + apply no_ws_run_app; [done |].
      apply no_ws_run_cons; [by apply IH | right].
      inversion Hws' as [|?? [Hne Hw'] _]; subst.
      rewrite head_join by done. intros d Hd.
      destruct w' as [|d' w']; [done |]. injection Hd as ->.
      by inversion Hw'.
Qed.

(** A cleaned text has no newline and no run of whitespace. *)
Lemma clean_shape s :
  (newline ∉ join (u " ") (split_ws s)) ∧ no_ws_run (join (u " ") (split_ws s)).
Proof.
  assert (Forall (λ w : str, w ≠ [] ∧ no_ws w) (split_ws s)) as Hp.
  { apply split_ws_go_pieces. constructor. }
  split; [| by apply join_no_ws_run].
  intros Hin. apply join_chars in Hp.
  rewrite Forall_forall in Hp. by destruct (Hp _ Hin).
Qed.

(** *** [find] and [split] *)

Lemma startswith_app p s : startswith p s = true → ∃ b, s = p ++ b.
Proof.
  revert s. induction p as [|a p IH]; intros s; simpl.
  - by exists s.
  - destruct s as [|b s]; [done |].
    intros [Hab Hp]%andb_prop. apply N.eqb_eq in Hab as ->.
    destruct (IH s Hp) as [r ->]. by exists r.
Qed.

Lemma startswith_prefix p b : startswith p (p ++ b) = true.
Proof. induction p as [|c p IH]; simpl; [done |]. by rewrite N.eqb_refl. Qed.

Lemma find_Some sep s j :
  find sep s = Some j → s = take j s ++ sep ++ drop (j + length sep) s.
Proof.
  revert j. induction s as [|c s IH]; intros j; simpl.
  - destruct (startswith sep []) eqn:Hp; [| done].
    intros [= <-]. apply startswith_app in Hp as [b Hb].
    destruct sep; [done | discriminate].
  - destruct (startswith sep (c :: s)) eqn:Hp.
    + intros [= <-]. apply startswith_app in Hp as [b Hb].
      rewrite Hb. simpl. by rewrite drop_app_length.
    + destruct (find sep s) as [k|] eqn:Hf; [| done].
      intros [= <-]. simpl. f_equal. by apply IH.
Qed.

Lemma find_None sep s : find sep s = None → ¬ occurs sep s.
Proof.
  induction s as [|c s IH]; simpl.
  - destruct (startswith sep []) eqn:Hp; [done |]. intros _ (a & b & Hab).
    destruct a; [| done]. destruct sep; [done | done].
  - destruct (startswith sep (c :: s)) eqn:Hp; [done |].
    destruct (find sep s) eqn:Hf; [done |]. intros _ (a & b & Hab).
    destruct a as [|a0 a].
    + simpl in Hab. by rewrite Hab, startswith_prefix in Hp.
    + injection Hab as _ Hab. apply IH; [done |]. by exists a, b.
Qed.

Lemma split_upto_last n sep s : ∃ p, last (split_upto n sep s) = Some p.
Proof.
  revert s. induction n as [|n IH]; intros s; simpl; [by exists s |].
  destruct (find sep s); [| by exists s].
  destruct (IH (drop (n0 + length sep) s)) as [p Hp].
  exists p. by rewrite last_cons, Hp.
Qed.

(** The last piece of a split holds no separator, and is either the whole
    string or what follows an occurrence of the separator. *)
Lemma split_last_piece sep s :
  sep ≠ [] →
  let piece := last_piece (split sep s) in
  ¬ occurs sep piece ∧ (piece = s ∨ ∃ pre, s = pre ++ sep ++ piece).
Proof.
  intros Hsep. unfold split, last_piece.
  assert (∀ n s, (length s ≤ n)%nat →
            let piece := default [] (last (split_upto n sep s)) in
            ¬ occurs sep piece ∧ (piece = s ∨ ∃ pre, s = pre ++ sep ++ piece))
    as Hgen; [| by apply Hgen].
  clear s. induction n as [|n IH]; intros s Hlen; simpl.
  - destruct s; [| simpl in Hlen; lia]. split; [| by left].
    intros (a & b & Hab). destruct a; [| done]. by destruct sep.
  - destruct (find sep s) as [j|] eqn:Hf.
    + pose proof (find_Some _ _ _ Hf) as Hs.
      set (rest := drop (j + length sep) s) in *.
      assert (length rest ≤ n)%nat as Hrest.
      { apply (f_equal length) in Hs. rewrite !length_app in Hs.
        destruct sep; [done |]. simpl in Hs. lia. }
      destruct (IH rest Hrest) as [Hno Hpiece].
      rewrite last_cons. destruct (split_upto_last n sep rest) as [p Hp].
      rewrite Hp in *. simpl in *. split; [done |]. right.
      destruct Hpiece as [-> | [pre Hpre]].
      * by exists (take j s).
      * exists (take j s ++ sep ++ pre).
        rewrite Hs at 1. rewrite Hpre at 1. by rewrite <- !app_assoc.
    + simpl. split; [by apply find_None | by left].
Qed.

Lemma rstrip_occurs sep s : occurs sep (rstrip s) → occurs sep s.
Proof.
  intros (a & b & Hab). destruct (rstrip_split s) as (ws & Hs & _).
  exists a, (b ++ ws). rewrite Hs at 1. rewrite Hab. by rewrite <- !app_assoc.
Qed.

End TextFacts.


(** ** Entries *)

Module EntryFacts.
Import PyStr Py Entry Spec.

Lemma well_typed_fields d :
  well_typed d = true →
  iterable (dict_get d "links" (PList [])) = true
  ∧ iterable (dict_get d "authors" (PList [])) = true
  ∧ iterable (dict_get d "tags" (PList [])) = true
  ∧ is_str (dict_get d "id" (PStr [])) = true
  ∧ is_str (dict_get d "title" (PStr [])) = true
  ∧ is_str (dict_get d "summary" (PStr [])) = true
  ∧ is_str (dict_get d "arxiv_comment" (PStr [])) = true
  ∧ isinstance_dict (dict_get d "arxiv_primary_category" (PDict ∅)) = true.
Proof.
  unfold well_typed. rewrite !andb_true_iff. tauto.
Qed.

Lemma iter_iterable v : iterable v = true → iter v = inr (items_of v).
Proof. unfold items_of. by destruct v. Qed.

Lemma as_str_is_str v : is_str v = true → as_str v = inr (str_of v).
Proof. by destruct v. Qed.

(** On an entry, every key but "updated" is looked up as [get] does. *)
Lemma entry_get_plain v key dflt :
  key ≠ "updated" → entry_get v key dflt = get v key dflt.
Proof.
  intros Hk. destruct v; try done.
  unfold entry_get, get, dict_get, feed_lookup.
  by rewrite bool_decide_eq_false_2.
Qed.

(** "updated" falls back on "published". *)
Lemma entry_get_updated d dflt :
  entry_get (PDict d) "updated" dflt
  = inr (match d !! "updated" with
         | Some v => v
         | None => dict_get d "published" dflt
         end).
Proof.
  unfold entry_get, feed_lookup, dict_get. cbn.
  by destruct (d !! "updated").
Qed.

(** A well-typed entry is normalised, to the record [normalised]. *)
Lemma parse_entry_well_typed d :
  well_typed d = true → _parse_entry (PDict d) = inr (normalised d).
Proof.
  intros (Hl & Ha & Ht & Hi & Htt & Hs & Hc & Hp)%well_typed_fields.
  unfold _parse_entry, extract_id, _clean_text.
  rewrite entry_get_updated, !entry_get_plain by done.
  unfold get, normalised, list_field, str_field.
  cbn [mbind result_bind mret result_ret].
  rewrite (iter_iterable _ Hl), (iter_iterable _ Ha), (iter_iterable _ Ht).
  rewrite (as_str_is_str _ Hi), (as_str_is_str _ Htt), (as_str_is_str _ Hs),
    (as_str_is_str _ Hc).
  cbn [mbind result_bind mret result_ret].
  destruct (scan_links _) as [pdf html].
  destruct (dict_get d "arxiv_primary_category" (PDict ∅)); try done.
Qed.

Lemma result_bind_inr {A B} (m : result A) (f : A → result B) y :
  m ≫= f = inr y → ∃ x, m = inr x ∧ f x = inr y.
Proof. destruct m as [e|x]; [done |]. intros H. by exists x. Qed.

Lemma iter_inr v l : mret v ≫= iter = inr l → iterable v = true.
Proof. by destruct v. Qed.

Lemma as_str_inr {B} v (f : str → B) y :
  mret v ≫= (λ x, s ← as_str x; mret (f s)) = inr y → is_str v = true.
Proof. by destruct v. Qed.

(** Only well-typed entries are normalised. *)
Lemma parse_entry_inr entry p :
  _parse_entry entry = inr p → ∃ d, entry = PDict d ∧ well_typed d = true.
Proof.
  destruct entry as [| | | | |d|]; try done.
  intros H. exists d. split; [done |].
  unfold _parse_entry, extract_id, _clean_text in H.
  rewrite entry_get_updated, !entry_get_plain in H by done.
  unfold get in H.
  apply result_bind_inr in H as (links & Hl%iter_inr & H).
  destruct (scan_links links) as [pdf html].
  apply result_bind_inr in H as (author_items & Ha%iter_inr & H).
  apply result_bind_inr in H as (tag_items & Ht%iter_inr & H).
  apply result_bind_inr in H as (id & Hi%as_str_inr & H).
  apply result_bind_inr in H as (title & Htt%as_str_inr & H).
  apply result_bind_inr in H as (published & _ & H).
  apply result_bind_inr in H as (updated & _ & H).
  apply result_bind_inr in H as (summary & Hs%as_str_inr & H).
  apply result_bind_inr in H as (comment & Hc%as_str_inr & H).
  apply result_bind_inr in H as (journal_ref & _ & H).
  apply result_bind_inr in H as (doi & _ & H).
  apply result_bind_inr in H as (primary & [= <-] & H).
  unfold well_typed. rewrite Hl, Ha, Ht, Hi, Htt, Hs, Hc. simpl.
  by destruct (dict_get d "arxiv_primary_category" (PDict ∅)).
Qed.

End EntryFacts.

(** ** Normalisation of an entry *)

Module Normalisation.
Import PyStr Py Entry Spec TextFacts EntryFacts.

(** The loops of [_parse_entry], as functions of the items. *)

Lemma collect_fold key items : ∀ acc,
  fold_left (collect_step key) items acc = acc ++ omap (named key) items.
Proof.
  induction items as [|item items IH]; intros acc; simpl.
  - by rewrite app_nil_r.
  - rewrite IH. unfold collect_step, named.
    destruct item as [| | | | |d|d]; try done;
      destruct (d !! key); by rewrite <- ?app_assoc.
Qed.

Lemma collect_omap key items : collect key items = omap (named key) items.
Proof. apply collect_fold. Qed.

Lemma pdf_not_html link : is_link_of pdf_type link → ¬ is_link_of html_type link.
Proof.
  destruct link as [| | | | |d|]; try done. simpl.
  destruct (dict_get d "type" PNone) as [| | |s| | |]; try done. simpl.
  rewrite !bool_decide_eq_true. by intros ->.
Qed.

Lemma link_step_pdf urls link :
  is_link_of pdf_type link → link_step urls link = (href link, urls.2).
Proof.
  destruct link as [| | | | |d|]; try done. simpl. unfold pdf_type.
  by intros ->.
Qed.

Lemma link_step_html urls link :
  is_link_of html_type link → link_step urls link = (urls.1, href link).
Proof.
  intros Hh. assert (¬ is_link_of pdf_type link) as Hp.
  { intros Hp. by apply (pdf_not_html link). }
  destruct link as [| | | | |d|]; try done. simpl in *.
  unfold pdf_type, html_type in *.
  destruct (eq_str (dict_get d "type" PNone) (u "application/pdf")); [done |].
  by rewrite Hh.
Qed.

Lemma link_step_other urls link :
  ¬ is_link_of pdf_type link → ¬ is_link_of html_type link →
  link_step urls link = urls.
Proof.
  destruct link as [| | | | |d|]; try done. simpl.
  unfold pdf_type, html_type.
  destruct (eq_str (dict_get d "type" PNone) (u "application/pdf")); [done |].
  by destruct (eq_str (dict_get d "type" PNone) (u "text/html")).
Qed.

Lemma scan_links_fold links : ∀ urls,
  fold_left link_step links urls =
  (from_option href urls.1 (last (filter (is_link_of pdf_type) links)),
   from_option href urls.2 (last (filter (is_link_of html_type) links))).
Proof.
  induction links as [|link links IH]; intros [pdf html]; [done |].
  simpl fold_left. rewrite IH, !filter_cons.
  destruct (decide (is_link_of pdf_type link)) as [Hp | Hp].
  - rewrite link_step_pdf by done.
    destruct (decide (is_link_of html_type link)) as [Hh | Hh].
    { by destruct (pdf_not_html link). }
    rewrite last_cons. simpl.
    by destruct (last (filter (is_link_of pdf_type) links)).
  - destruct (decide (is_link_of html_type link)) as [Hh | Hh].
    + rewrite link_step_html by done. rewrite last_cons. simpl.
      by destruct (last (filter (is_link_of html_type) links)).
    + by rewrite link_step_other.
Qed.

(** The link loop keeps, for each media type, the address of the last
    link of that type. *)
Lemma scan_links_last links :
  scan_links links = (last_href pdf_type links, last_href html_type links).
Proof. apply scan_links_fold. Qed.

Lemma last_href_none ty links :
  Forall (λ x, ¬ is_link_of ty x) links → last_href ty links = PNone.
Proof.
  intros H. unfold last_href.
  replace (filter (is_link_of ty) links) with (@nil pyval); [done |].
  symmetry. induction H as [|x l Hx _ IH]; [done |].
  rewrite filter_cons. by destruct (decide (is_link_of ty x)).
Qed.

Lemma last_href_single ty links links' a :
  filter (is_link_of ty) links = [a] → links' ≡ₚ links →
  last_href ty links' = href a.
Proof.
  intros Hf Hp. unfold last_href.
  assert (filter (is_link_of ty) links' ≡ₚ [a]) as Hf'.
  { rewrite <- Hf. by apply filter_Permutation. }
  apply Permutation_singleton_r in Hf'. by rewrite Hf'.
Qed.

Lemma well_typed_set_links d links :
  well_typed d = true → well_typed (<[ "links" := PList links ]> d) = true.
Proof.
  unfold well_typed, dict_get. rewrite lookup_insert_eq.
  rewrite !lookup_insert_ne by done. simpl.
  rewrite !andb_true_iff. tauto.
Qed.

Lemma list_field_set_links d links :
  list_field (<[ "links" := PList links ]> d) "links" = links.
Proof. unfold list_field, dict_get. by rewrite lookup_insert_eq. Qed.

(** *** Links *)

(** C2, as the code has it: for every entry that normalises, [pdf_url]
    (respectively [html_url]) is the address of the LAST link of the PDF
    (respectively HTML) media type in the link list; it is [None] when the
    list has no link of that type; and when exactly one PDF link and one
    HTML link are present, both fields hold their addresses, whatever the
    order of the list. *)
Theorem links_last_wins d :
  well_typed d = true →
  ∃ p, _parse_entry (PDict d) = inr p
    ∧ Paper.pdf_url p = last_href pdf_type (list_field d "links")
    ∧ Paper.html_url p = last_href html_type (list_field d "links")
    ∧ (Forall (λ x, ¬ is_link_of pdf_type x) (list_field d "links") →
       Paper.pdf_url p = PNone)
    ∧ (Forall (λ x, ¬ is_link_of html_type x) (list_field d "links") →
       Paper.html_url p = PNone)
    ∧ (∀ a b links',
         filter (is_link_of pdf_type) (list_field d "links") = [a] →
         filter (is_link_of html_type) (list_field d "links") = [b] →
         links' ≡ₚ list_field d "links" →
         ∃ p', _parse_entry (PDict (<[ "links" := PList links' ]> d)) = inr p'
           ∧ Paper.pdf_url p' = href a ∧ Paper.html_url p' = href b).
Proof.
  intros Hd. exists (normalised d).
  split; [by apply parse_entry_well_typed |].
  unfold normalised; cbn [Paper.pdf_url Paper.html_url].
  rewrite scan_links_last. cbn [fst snd].
  split_and!; try done.
  - apply last_href_none.
  - apply last_href_none.
  - intros a b links' Ha Hb Hperm.
    exists (normalised (<[ "links" := PList links' ]> d)).
    split; [by apply parse_entry_well_typed, well_typed_set_links |].
    unfold normalised; cbn [Paper.pdf_url Paper.html_url].
    rewrite list_field_set_links, scan_links_last. cbn [fst snd].
    split; eapply last_href_single; eauto.
Qed.

(** The sample entry lists its HTML link before its PDF link. *)
Lemma links_last_wins_witness :
  ∃ p, _parse_entry (PDict Examples.sample_fields) = inr p
    ∧ Paper.pdf_url p = PStr (u "http://arxiv.org/pdf/2103.08220v2")
    ∧ Paper.html_url p = PStr (u "http://arxiv.org/abs/2103.08220v2").
Proof.
  destruct (links_last_wins Examples.sample_fields) as (p & Hp & Hpdf & Hhtml & _).
  - vm_compute. reflexivity.
  - exists p. split; [exact Hp |]. rewrite Hpdf, Hhtml.
    split; vm_compute; reflexivity.
Defined.

(** C2, as stated, fails: of two PDF links the entry keeps the second. *)
Lemma first_pdf_link_not_kept :
  ∃ p, _parse_entry Examples.two_pdf_entry = inr p
    ∧ Paper.pdf_url p = PStr (u "http://arxiv.org/pdf/2103.08220v2")
    ∧ first_href pdf_type Examples.two_pdf_links
      = PStr (u "http://arxiv.org/pdf/2103.08220v1")
    ∧ Paper.pdf_url p ≠ first_href pdf_type Examples.two_pdf_links.
Proof.
  eexists. split; [vm_compute; reflexivity |].
  split_and!; [vm_compute; reflexivity .. |].
  vm_compute. discriminate.
Qed.

(** *** Title and summary *)

(** C7: for every entry that normalises, title and summary are the raw
    texts with each run of whitespace collapsed to one space and the ends
    trimmed; an absent field gives the empty string; neither holds a
    newline or two adjacent whitespace characters; and "Foo\n\n  Bar   Baz"
    becomes "Foo Bar Baz". *)
Theorem title_summary_collapsed d :
  well_typed d = true →
  ∃ p, _parse_entry (PDict d) = inr p
    ∧ Paper.title p = collapse_and_trim (str_field d "title")
    ∧ Paper.summary p = collapse_and_trim (str_field d "summary")
    ∧ (d !! "title" = None → Paper.title p = [])
    ∧ (d !! "summary" = None → Paper.summary p = [])
    ∧ (newline ∉ Paper.title p) ∧ no_ws_run (Paper.title p)
    ∧ (newline ∉ Paper.summary p) ∧ no_ws_run (Paper.summary p)
    ∧ _clean_text (PStr (u "Foo" ++ [newline; newline] ++ u "  Bar   Baz"))
      = inr (u "Foo Bar Baz").
Proof.
  intros Hd. exists (normalised d).
  split; [by apply parse_entry_well_typed |].
  unfold normalised; cbn [Paper.title Paper.summary].
  split_and!.
  - apply clean_text_refines.
  - apply clean_text_refines.
  - intros H. unfold str_field, dict_get. by rewrite H.
  - intros H. unfold str_field, dict_get. by rewrite H.
  - apply clean_shape.
  - apply clean_shape.
  - apply clean_shape.
  - apply clean_shape.
  - vm_compute. reflexivity.
Qed.

Lemma title_summary_collapsed_witness :
  ∃ p, _parse_entry (PDict Examples.sample_fields) = inr p
    ∧ Paper.title p = u "Foo Bar Baz"
    ∧ Paper.summary p = u "An abstract".
Proof.
  destruct (title_summary_collapsed Examples.sample_fields)
    as (p & Hp & Ht & Hs & _).
  - vm_compute. reflexivity.
  - exists p. split; [exact Hp |]. rewrite Ht, Hs.
    split; vm_compute; reflexivity.
Defined.

(** *** Identifier *)

(** C8: for every entry that normalises, the id is the identifier URI cut
    after an occurrence of "/abs/" (the whole URI when it has none), with
    trailing whitespace stripped; it never contains "/abs/"; an absent
    identifier gives the empty string; and
    "http://arxiv.org/abs/2103.08220v2" gives "2103.08220v2". *)
Theorem id_after_abs_marker d :
  well_typed d = true →
  ∃ p, _parse_entry (PDict d) = inr p
    ∧ (∃ piece trailing,
         (piece = str_field d "id"
          ∨ ∃ pre, str_field d "id" = pre ++ abs_marker ++ piece)
         ∧ ¬ occurs abs_marker piece
         ∧ piece = Paper.id p ++ trailing
         ∧ all_ws trailing
         ∧ ∀ c, last (Paper.id p) = Some c → isspace c = false)
    ∧ ¬ occurs abs_marker (Paper.id p)
    ∧ (d !! "id" = None → Paper.id p = [])
    ∧ extract_id (PDict {[ "id" := PStr (u "http://arxiv.org/abs/2103.08220v2") ]})
      = inr (u "2103.08220v2").
Proof.
  intros Hd. exists (normalised d).
  split; [by apply parse_entry_well_typed |].
  unfold normalised; cbn [Paper.id].
  destruct (split_last_piece abs_marker (str_field d "id")) as [Hno Hcut];
    [done |].
  split_and!.
  - destruct (rstrip_split (last_piece (split abs_marker (str_field d "id"))))
      as (trailing & Htr & Hws).
    eexists _, trailing. split_and!; [exact Hcut | exact Hno | exact Htr
                                     | exact Hws | apply rstrip_last].
  - intros H. by apply Hno, rstrip_occurs.
  - intros H. unfold str_field, dict_get. by rewrite H.
  - vm_compute. reflexivity.
Qed.

Lemma id_after_abs_marker_witness :
  ∃ p, _parse_entry (PDict Examples.sample_fields) = inr p
    ∧ ¬ occurs abs_marker (Paper.id p).
Proof.
  destruct (id_after_abs_marker Examples.sample_fields)
    as (p & Hp & _ & Hno & _).
  - vm_compute. reflexivity.
  - by exists p.
Defined.

(** *** Authors and categories *)

(** C9: for every entry that normalises, the authors (categories) are the
    names (terms) of the items of the feed's list, in order, an item
    counting when it is a mapping with the key or an object with the
    attribute and being skipped otherwise; without authors (tags) in the
    feed the field is the empty list. *)
Theorem authors_categories_in_order d :
  well_typed d = true →
  ∃ p, _parse_entry (PDict d) = inr p
    ∧ Paper.authors p = omap (named "name") (list_field d "authors")
    ∧ Paper.categories p = omap (named "term") (list_field d "tags")
    ∧ (d !! "authors" = None → Paper.authors p = [])
    ∧ (d !! "tags" = None → Paper.categories p = [])
    ∧ collect "name" [Examples.author "A. Bengio"; Examples.author "Y. LeCun"]
      = [PStr (u "A. Bengio"); PStr (u "Y. LeCun")].
Proof.
  intros Hd. exists (normalised d).
  split; [by apply parse_entry_well_typed |].
  unfold normalised; cbn [Paper.authors Paper.categories].
  rewrite !collect_omap. split_and!; try done.
  - intros H. unfold list_field, dict_get. by rewrite H.
  - intros H. unfold list_field, dict_get. by rewrite H.
Qed.

Lemma authors_categories_in_order_witness :
  ∃ p, _parse_entry (PDict Examples.sample_fields) = inr p
    ∧ Paper.authors p = [PStr (u "A. Bengio"); PStr (u "Y. LeCun")]
    ∧ Paper.categories p = [PStr (u "cs.AI")].
Proof.
  destruct (authors_categories_in_order Examples.sample_fields)
    as (p & Hp & Ha & Hc & _).
  - vm_compute. reflexivity.
  - exists p. split; [exact Hp |]. rewrite Ha, Hc.
    split; vm_compute; reflexivity.
Defined.

End Normalisation.

(** ** The operations *)

Module ClientFacts.
Import PyStr Py Entry Client Spec EntryFacts.

(** *** Which exceptions normalisation can raise *)

Lemma interp_only_ret {A} (x : A) : interp_only (mret x).
Proof. by intros e. Qed.

Lemma interp_only_raise {A} c msg :
  of_interpreter c = true → interp_only (@raise A c msg).
Proof. intros Hc e [= <-]. done. Qed.

Lemma interp_only_bind {A B} (m : result A) (f : A → result B) :
  interp_only m → (∀ x, interp_only (f x)) → interp_only (m ≫= f).
Proof.
  intros Hm Hf e. destruct m as [e'|x]; simpl.
  - intros [= <-]. by apply Hm.
  - apply Hf.
Qed.

Lemma interp_only_get v key dflt : interp_only (get v key dflt).
Proof.
  destruct v; try (by apply interp_only_raise); apply interp_only_ret.
Qed.

Lemma interp_only_entry_get v key dflt :
  interp_only (entry_get v key dflt).
Proof.
  destruct v; try (by apply interp_only_raise); apply interp_only_ret.
Qed.

Lemma interp_only_getattr v key : interp_only (getattr v key).
Proof.
  destruct v as [| | | | |d|d]; try (by apply interp_only_raise);
    simpl; destruct (d !! key);
    (apply interp_only_ret || by apply interp_only_raise).
Qed.

Lemma interp_only_iter v : interp_only (iter v).
Proof.
  destruct v; try (by apply interp_only_raise); apply interp_only_ret.
Qed.

Lemma interp_only_getitem0 v : interp_only (getitem0 v).
Proof.
  destruct v as [| | |[|??]|[|??]| |]; try (by apply interp_only_raise);
    apply interp_only_ret.
Qed.

Lemma interp_only_as_str v : interp_only (as_str v).
Proof.
  destruct v; try (by apply interp_only_raise); apply interp_only_ret.
Qed.

Create HintDb interp_db discriminated.
#[local] Hint Resolve interp_only_ret interp_only_get
  interp_only_entry_get interp_only_getattr interp_only_iter
  interp_only_getitem0 interp_only_as_str : interp_db.

Ltac interp_only_tac :=
  repeat first
    [ apply interp_only_bind; [| intros ?]
    | progress auto with interp_db
    | match goal with |- interp_only (let '(_, _) := ?x in _) =>
        destruct x end ].

Lemma interp_only_parse_entry entry : interp_only (_parse_entry entry).
Proof. unfold _parse_entry, extract_id, _clean_text. interp_only_tac. Qed.

Lemma interp_only_mapM entries :
  interp_only (mapM _parse_entry entries).
Proof.
  induction entries as [|entry entries IH]; simpl.
  - apply interp_only_ret.
  - apply interp_only_bind; [apply interp_only_parse_entry |].
    intros p. apply interp_only_bind; [done |].
    intros ps. apply interp_only_ret.
Qed.

(** *** The gate, run by one caller *)

Lemma wait_for_rate_limit_spec e w :
  _wait_for_rate_limit e w =
  (inr (), World (stamp_time e w) (Some (stamp_time e w))
                 (trace w ++ sleeps e w ++ [EvStamp (stamp_time e w)])).
Proof.
  unfold _wait_for_rate_limit, stamp_time, sleeps. destruct w as [now last tr].
  unfold asyncio_sleep, advance, emit, get_last_request, datetime_now,
    set_last_request, mbind, M_bind, mret, M_ret.
  cbn [clock last_request trace].
  destruct (remaining_wait last (now + lock_wait e)) as [d|];
    cbn [clock last_request trace].
  - by rewrite <- app_assoc, Z.add_assoc.
  - done.
Qed.

(** *** A call: its effects, and its reply *)

Lemma except_http_error_lift {A} (r : result A) handler w :
  interp_only r → except_http_error (lift r) handler w = (r, w).
Proof.
  intros Hr. unfold except_http_error, lift. destruct r as [x|y]; [| done].
  specialize (Hr x eq_refl). by destruct (exc_type x).
Qed.

Lemma M_bind_run {A B} (m : M A) (f : A → M B) w :
  (m ≫= f) w =
  match m w with
  | (inl x, w') => (inl x, w')
  | (inr a, w') => f a w'
  end.
Proof. done. Qed.

Ltac run_call :=
  cbv beta iota zeta delta
    [mbind M_bind mret M_ret result_bind result_ret lift throw raise emit
     advance clock last_request trace get exc_type].

Lemma search_factor parse e query max_results w :
  search parse e query max_results w =
  (search_reply parse (outcome e),
   after_call e (search_params query (Z.min max_results 2000)) w).
Proof.
  unfold search. rewrite M_bind_run, wait_for_rate_limit_spec.
  unfold after_call, search_reply, success, lacks_entries.
  set (t := stamp_time e w). set (sl := sleeps e w).
  unfold except_http_error, client_get, raise_for_status.
  destruct (outcome e) as [cause | r]; run_call;
    rewrite <- !app_assoc; [done |].
  destruct ((200 <=? status_code r) && (status_code r <? 300)); [| done].
  destruct (negb (isinstance_dict (parse (text r)))
            || negb (contains (parse (text r)) "entries")) eqn:Hl; [done |].
  destruct (parse (text r)) as [| | | | |d|]; try done.
  destruct (negb (truthy (dict_get d "entries" PNone))); [done |].
  set (items := getattr (PDict d) "entries").
  assert (interp_only ((items ≫= iter) ≫= mapM _parse_entry)) as Hr.
  { subst items. interp_only_tac. apply interp_only_mapM. }
  revert Hr. run_call.
  destruct items as [x|v]; [by intros Hr; specialize (Hr x eq_refl); destruct x as [[] ?] |].
  destruct (iter v) as [x|its]; [by intros Hr; specialize (Hr x eq_refl); destruct x as [[] ?] |].
  destruct (mapM _parse_entry its) as [x|ps]; [| done].
  intros Hr; specialize (Hr x eq_refl); by destruct x as [[] ?].
Qed.

Lemma get_paper_factor parse e paper_id w :
  get_paper parse e paper_id w =
  (get_paper_reply parse paper_id (outcome e),
   after_call e (get_paper_params paper_id) w).
Proof.
  unfold get_paper. rewrite M_bind_run, wait_for_rate_limit_spec.
  unfold after_call, get_paper_reply, success, lacks_entries.
  set (t := stamp_time e w). set (sl := sleeps e w).
  unfold except_http_error, client_get, raise_for_status.
  destruct (outcome e) as [cause | r]; run_call;
    rewrite <- !app_assoc; [done |].
  destruct ((200 <=? status_code r) && (status_code r <? 300)); [| done].
  destruct (negb (isinstance_dict (parse (text r)))
            || negb (contains (parse (text r)) "entries")) eqn:Hl; [done |].
  destruct (parse (text r)) as [| | | | |d|]; try done.
  destruct (negb (truthy (dict_get d "entries" PNone))); [done |].
  set (items := getattr (PDict d) "entries").
  assert (interp_only ((items ≫= getitem0) ≫= _parse_entry)) as Hr.
  { subst items. interp_only_tac. }
  revert Hr. run_call.
  destruct items as [x|v]; [by intros Hr; specialize (Hr x eq_refl); destruct x as [[] ?] |].
  destruct (getitem0 v) as [x|first]; [by intros Hr; specialize (Hr x eq_refl); destruct x as [[] ?] |].
  destruct (_parse_entry first) as [x|p]; [| done].
  intros Hr; specialize (Hr x eq_refl); by destruct x as [[] ?].
Qed.

Lemma perform_world parse e c w :
  (perform parse e c w).2 = after_call e (params_of c) w.
Proof.
  destruct c as [query max_results | paper_id]; unfold perform.
  - by rewrite search_factor.
  - by rewrite get_paper_factor.
Qed.

(** What follows the entry test raises no [ValueError]. *)
Lemma search_reply_entries parse r d :
  parse (text r) = PDict d → success r = true →
  is_Some (d !! "entries") →
  search_reply parse (HttpResponds r) =
  if truthy (dict_get d "entries" PNone)
  then (getattr (PDict d) "entries" ≫= iter) ≫= mapM _parse_entry
  else inr [].
Proof.
  intros Hp Hs Hd. unfold search_reply, lacks_entries. rewrite Hs, Hp. simpl.
  rewrite bool_decide_eq_true_2 by done. simpl.
  by destruct (truthy (dict_get d "entries" PNone)).
Qed.

Lemma get_paper_reply_entries parse paper_id r d :
  parse (text r) = PDict d → success r = true →
  is_Some (d !! "entries") →
  get_paper_reply parse paper_id (HttpResponds r) =
  if truthy (dict_get d "entries" PNone)
  then (getattr (PDict d) "entries" ≫= getitem0) ≫= _parse_entry
  else inl (Exn ValueError (paper_not_found paper_id)).
Proof.
  intros Hp Hs Hd. unfold get_paper_reply, lacks_entries. rewrite Hs, Hp. simpl.
  rewrite bool_decide_eq_true_2 by done. simpl.
  by destruct (truthy (dict_get d "entries" PNone)).
Qed.

Lemma lacks_entries_false feed :
  lacks_entries feed = false →
  ∃ d, feed = PDict d ∧ is_Some (d !! "entries").
Proof.
  destruct feed as [| | | | |d|]; try done. unfold lacks_entries. simpl.
  intros H. exists d. split; [done |].
  by apply negb_false_iff, bool_decide_eq_true in H.
Qed.

(** *** The request *)

(** C6: [search] sends [max_results] as the smaller of the argument and
    2000: above 2000 it is 2000, otherwise it is the argument, zero and
    negative values included; for 5000 the request carries 2000. *)
Theorem search_clamps_max_results parse e query max_results w :
  trace (search parse e query max_results w).2 =
    trace w ++ sleeps e w ++
    [EvStamp (stamp_time e w);
     EvGet base_url
       [("search_query", PStr query);
        ("max_results",
         PInt (if 2000 <? max_results then 2000 else max_results));
        ("sortBy", PStr (u "submittedDate"));
        ("sortOrder", PStr (u "descending"))]]
  ∧ last (trace (search parse e query 5000 w).2) =
    Some (EvGet base_url
            [("search_query", PStr query);
             ("max_results", PInt 2000);
             ("sortBy", PStr (u "submittedDate"));
             ("sortOrder", PStr (u "descending"))]).
Proof.
  rewrite !search_factor. unfold after_call, search_params.
  cbn [snd trace]. split.
  - replace (max_results `min` 2000)
      with (if 2000 <? max_results then 2000 else max_results); [done |].
    destruct (Z.ltb_spec 2000 max_results); lia.
  - rewrite !app_assoc.
    change [EvStamp (stamp_time e w);
            EvGet base_url
              [("search_query", PStr query);
               ("max_results", PInt (5000 `min` 2000));
               ("sortBy", PStr (u "submittedDate"));
               ("sortOrder", PStr (u "descending"))]]
      with ([EvStamp (stamp_time e w)] ++
            [EvGet base_url
               [("search_query", PStr query);
                ("max_results", PInt 2000);
                ("sortBy", PStr (u "submittedDate"));
                ("sortOrder", PStr (u "descending"))]]).
    by rewrite app_assoc, last_snoc.
Qed.

(** *** Failures *)

(** C5: when the parsed feed has an empty (falsy) entry list, [search]
    returns the empty list, and [get_paper] raises the not-found error,
    whose message ends in the requested identifier. *)
Theorem empty_results_asymmetric parse e query max_results paper_id w r d v :
  outcome e = HttpResponds r → success r = true →
  parse (text r) = PDict d → d !! "entries" = Some v → truthy v = false →
  (search parse e query max_results w).1 = inr []
  ∧ (get_paper parse e paper_id w).1
    = inl (Exn ValueError (u "Paper not found: " ++ paper_id)).
Proof.
  intros Ho Hs Hp Hd Hv. rewrite search_factor, get_paper_factor, Ho.
  cbn [fst].
  rewrite (search_reply_entries parse r d),
    (get_paper_reply_entries parse paper_id r d) by (done || by rewrite Hd).
  unfold dict_get. rewrite Hd. simpl. by rewrite Hv.
Qed.

Lemma empty_results_asymmetric_witness :
  (search (λ _, feedparser_no_data) empty_body (u "cat:cs.AI") 10
          (init 0)).1 = inr []
  ∧ (get_paper (λ _, feedparser_no_data) empty_body (u "2103.08220")
               (init 0)).1
    = inl (Exn ValueError (u "Paper not found: 2103.08220")).
Proof.
  apply (empty_results_asymmetric (λ _, feedparser_no_data) empty_body
           (u "cat:cs.AI") 10 (u "2103.08220") (init 0)
           (Response 200 [] []) no_data_fields (PList []));
    reflexivity.
Defined.

(** C3, as the code has it: the transport, malformed-response and
    not-found failures are all raised as [ValueError]; they differ in
    their messages only, which are pairwise different. *)
Theorem failures_differ_by_message_only parse e query max_results paper_id w :
  (∀ cause, transport_cause (outcome e) = Some cause →
     (search parse e query max_results w).1
       = inl (failure_exn (Transport cause))
     ∧ (get_paper parse e paper_id w).1
       = inl (failure_exn (Transport cause)))
  ∧ (∀ r, outcome e = HttpResponds r → success r = true →
       lacks_entries (parse (text r)) = true →
       (search parse e query max_results w).1 = inl (failure_exn Malformed)
       ∧ (get_paper parse e paper_id w).1 = inl (failure_exn Malformed))
  ∧ (∀ r d v, outcome e = HttpResponds r → success r = true →
       parse (text r) = PDict d → d !! "entries" = Some v →
       truthy v = false →
       (get_paper parse e paper_id w).1
         = inl (failure_exn (NotFound paper_id)))
  ∧ (∀ f, exc_type (failure_exn f) = ValueError)
  ∧ (∀ f g, exc_msg (failure_exn f) = exc_msg (failure_exn g) →
       same_kind f g).
Proof.
  rewrite search_factor, get_paper_factor. cbn [fst]. split_and!.
  - intros cause Hc. unfold search_reply, get_paper_reply.
    destruct (outcome e) as [c | r]; simpl in Hc.
    + by injection Hc as ->.
    + destruct (success r); [done |]. by injection Hc as ->.
  - intros r -> Hs Hl. unfold search_reply, get_paper_reply.
    by rewrite Hs, Hl.
  - intros r d v -> Hs Hp Hd Hv.
    rewrite (get_paper_reply_entries parse paper_id r d)
      by (done || by rewrite Hd).
    unfold dict_get. rewrite Hd. simpl. by rewrite Hv.
  - by intros [].
  - intros [c1 | | p1] [c2 | | p2] H; try done; cbv in H; discriminate H.
Qed.

(** C3, as stated, fails: a refused connection, a feed without entry list
    and an unknown identifier raise exceptions of one and the same type. *)
Lemma failures_share_one_type :
  ∃ x y z,
    (search (λ _, PNone) unreachable (u "cat:cs.AI") 10 (init 0)).1 = inl x
    ∧ (search (λ _, PNone) empty_body (u "cat:cs.AI") 10 (init 0)).1 = inl y
    ∧ (get_paper (λ _, feedparser_no_data) empty_body (u "2103.08220")
                 (init 0)).1 = inl z
    ∧ exc_type x = exc_type y ∧ exc_type y = exc_type z
    ∧ exc_msg x ≠ exc_msg y ∧ exc_msg y ≠ exc_msg z.
Proof.
  eexists _, _, _. split_and!; try (vm_compute; reflexivity);
    vm_compute; discriminate.
Qed.

(** When the guard of the two operations fires: after a 2xx response,
    [search] and [get_paper] raise the malformed-response error exactly
    when what the parser returned is not a mapping with an "entries" key.
    The guard looks at nothing else of the parser's result. *)
Lemma malformed_iff_lacks_entries parse e query max_results paper_id w r :
  outcome e = HttpResponds r → success r = true →
  ((search parse e query max_results w).1
     = inl (Exn ValueError invalid_response)
   ↔ lacks_entries (parse (text r)) = true)
  ∧ ((get_paper parse e paper_id w).1
       = inl (Exn ValueError invalid_response)
     ↔ lacks_entries (parse (text r)) = true).
Proof.
  intros Ho Hs. rewrite search_factor, get_paper_factor, Ho. cbn [fst].
  destruct (lacks_entries (parse (text r))) eqn:Hl.
  - unfold search_reply, get_paper_reply. by rewrite Hs, Hl.
  - destruct (lacks_entries_false _ Hl) as (d & Hp & Hd).
    rewrite (search_reply_entries parse r d),
      (get_paper_reply_entries parse paper_id r d) by done.
    destruct (truthy (dict_get d "entries" PNone)).
    + split; (split; [| done]); intros H.
      * assert (interp_only
                  ((getattr (PDict d) "entries" ≫= iter) ≫= mapM _parse_entry))
          as Hi by (interp_only_tac; apply interp_only_mapM).
        by specialize (Hi _ H).
      * assert (interp_only
                  ((getattr (PDict d) "entries" ≫= getitem0) ≫= _parse_entry))
          as Hi by interp_only_tac.
        by specialize (Hi _ H).
    + split; (split; [| done]); [done |].
      intros [= H].
Qed.

(** C4, the code on a body that is no feed: for the empty body, which the
    parser turns into a result mapping with an empty entry list, the guard
    of the two operations does not fire, and instead of the
    malformed-response error [search] returns the empty list and
    [get_paper] reports the paper as not found. *)
Lemma empty_body_is_not_malformed :
  (search (λ _, feedparser_no_data) empty_body (u "cat:cs.AI") 10
          (init 0)).1 = inr []
  ∧ (get_paper (λ _, feedparser_no_data) empty_body (u "2103.08220")
               (init 0)).1
    = inl (Exn ValueError (u "Paper not found: 2103.08220")).
Proof. split; vm_compute; reflexivity. Qed.

(** *** The rate slot of a call *)

(** Whatever the clock does, a caller that finds a timestamp stores one at
    least the interval later, provided its sleep is not cut short. *)
Lemma stamp_time_after e w t :
  last_request w = Some t → 0 ≤ oversleep e → t + interval ≤ stamp_time e w.
Proof.
  intros Hl Hover. unfold stamp_time, remaining_wait. rewrite Hl.
  destruct (Z.ltb_spec (clock w + lock_wait e - t) interval); lia.
Qed.

(** C10: a call of [search] or [get_paper], however it ends, stores the
    timestamp exactly once, before it sends its request; the timestamp a
    following call stores is at least the interval later, also when the
    first call failed. *)
Theorem every_call_takes_a_slot parse e1 c1 e2 c2 w :
  0 ≤ oversleep e2 →
  trace (perform parse e1 c1 w).2 =
    trace w ++ sleeps e1 w ++
    [EvStamp (stamp_time e1 w); EvGet base_url (params_of c1)]
  ∧ Forall (λ ev, is_sleep ev = true) (sleeps e1 w)
  ∧ last_request (perform parse e1 c1 w).2 = Some (stamp_time e1 w)
  ∧ trace (perform parse e2 c2 (perform parse e1 c1 w).2).2 =
    trace (perform parse e1 c1 w).2 ++ sleeps e2 (perform parse e1 c1 w).2 ++
    [EvStamp (stamp_time e2 (perform parse e1 c1 w).2);
     EvGet base_url (params_of c2)]
  ∧ stamp_time e1 w + interval ≤ stamp_time e2 (perform parse e1 c1 w).2.
Proof.
  intros Hover. rewrite !perform_world. split_and!; try done.
  - unfold sleeps. destruct (remaining_wait _ _); by repeat constructor.
  - by apply stamp_time_after.
Qed.

(** A lookup that finds nothing, then a search, one second later. *)
Lemma every_call_takes_a_slot_witness :
  (perform (λ _, feedparser_no_data) empty_body (GetPaper (u "0000.00000"))
           (init 0)).1
  = Some (Exn ValueError (u "Paper not found: 0000.00000"))
  ∧ 0 + interval ≤
    stamp_time (Env 1000000 0 0 (HttpRaises [])) 
      (perform (λ _, feedparser_no_data) empty_body
               (GetPaper (u "0000.00000")) (init 0)).2.
Proof.
  split; [vm_compute; reflexivity |].
  apply (every_call_takes_a_slot (λ _, feedparser_no_data) empty_body
           (GetPaper (u "0000.00000")) (Env 1000000 0 0 (HttpRaises []))
           (Search [] 10) (init 0)).
  simpl. lia.
Defined.

End ClientFacts.

(** ** The rate gate under concurrency *)

Module GateFacts.
Import Client Gate Spec.



(** *** The invariant *)


(** Reading a task after an update of task [i]. *)
Lemma lookup_set i j (p q : pc) (ts : list pc) :
  <[i := p]> ts !! j = Some q →
  (j = i ∧ q = p) ∨ (j ≠ i ∧ ts !! j = Some q).
Proof.
  destruct (decide (j = i)) as [-> | Hne].
  - intros H. left. split; [done |].
    destruct (decide (i < length ts)%nat).
    + rewrite list_lookup_insert_eq in H by done. by injection H.
    + rewrite list_insert_ge in H by lia.
      apply lookup_lt_Some in H. lia.
  - rewrite list_lookup_insert_ne by done. by right.
Qed.



(** *** A single caller *)




(** *** The two views of the gate agree *)

(** The caller of [_wait_for_rate_limit] is one task of the gate: its moves
    are enabled, and lead to the timestamp it stores. *)
Lemma sequential_caller_is_a_run e w :
  0 ≤ lock_wait e → 0 ≤ oversleep e →
  run (moves_of e w) (State (Client.clock w) (Client.last_request w) None
                            [Idle] [])
  = Some (State (stamp_time e w) (Some (stamp_time e w)) None [Done]
                [stamp_time e w]).
Proof.
  intros Hlock Hover. unfold moves_of, stamp_time.
  cbn [run step app clock]. rewrite decide_True by done.
  cbn [tasks lock last_request clock dispatched lookup list_lookup insert
       list_insert set_task].
  destruct (remaining_wait (Client.last_request w)
              (Client.clock w + lock_wait e)) as [d|] eqn:Hd.
  - assert (0 < d) as Hpos.
    { unfold remaining_wait in Hd.
      destruct (Client.last_request w) as [t|]; [| done].
      destruct (Z.ltb_spec (Client.clock w + lock_wait e - t) interval);
        [| done]. injection Hd as <-. lia. }
    cbn [run step app clock tasks lock last_request dispatched lookup
         list_lookup insert list_insert set_task].
    rewrite decide_True by lia.
    cbn [run step app clock tasks lock last_request dispatched lookup
         list_lookup insert list_insert set_task].
    rewrite decide_True by lia.
    cbn [run step app clock tasks lock last_request dispatched lookup
         list_lookup insert list_insert set_task].
    by rewrite !Z.add_assoc.
  - done.
Qed.

(** *** Spacing *)



End GateFacts.

(** * Further properties *)

(** ** Text *)

Module MoreText.
Import PyStr Py Entry Spec More TextFacts.

Lemma split_ws_go_no_ws w rest : ∀ cur,
  no_ws w → split_ws_go cur (w ++ rest) = split_ws_go (cur ++ w) rest.
Proof.
  induction w as [|c w IH]; intros cur Hw; simpl.
  - by rewrite app_nil_r.
  - inversion Hw as [|?? Hc Hw']; subst. rewrite Hc, IH by done.
    by rewrite <- app_assoc.
Qed.

(** Splitting what [join] put together gives the pieces back. *)
Lemma split_ws_join ws :
  Forall (λ w : str, w ≠ [] ∧ no_ws w) ws → split_ws (join [space] ws) = ws.
Proof.
  unfold split_ws. induction ws as [|w ws IH]; intros Hws; [done |].
  inversion Hws as [|?? [Hne Hw] Hws']; subst. rewrite join_cons.
  destruct ws as [|w' ws].
  - rewrite <- (app_nil_r w) at 1. rewrite split_ws_go_no_ws by done.
    simpl. by destruct w.
  - rewrite split_ws_go_no_ws by done. simpl app.
    cbn [split_ws_go]. rewrite isspace_space, IH by done. by destruct w.
Qed.

Lemma nonspace_no_ws s : no_ws s → nonspace s = s.
Proof.
  unfold nonspace. induction 1 as [|c s Hc _ IH]; [done |].
  rewrite filter_cons, decide_True by done. by rewrite IH.
Qed.

Lemma nonspace_join_split s : ∀ cur,
  no_ws cur →
  nonspace (join [space] (split_ws_go cur s)) = cur ++ nonspace s.
Proof.
  induction s as [|c s IH]; intros cur Hcur.
  - simpl. rewrite app_nil_r. destruct cur; [done |].
    by rewrite nonspace_no_ws.
  - cbn [split_ws_go]. unfold nonspace at 2. rewrite filter_cons.
    destruct (isspace c) eqn:Hc.
    + rewrite decide_False by congruence. fold (nonspace s).
      specialize (IH [] ltac:(constructor)). simpl in IH.
      destruct cur as [|a cur]; [done |].
      rewrite join_cons. destruct (split_ws_go [] s) as [|w ws] eqn:Hsp.
      * simpl in IH. rewrite <- IH, app_nil_r. by apply nonspace_no_ws.
      * unfold nonspace at 1. rewrite filter_app.
        fold (nonspace (a :: cur)). rewrite nonspace_no_ws by done.
        rewrite filter_cons.
        rewrite decide_False by (intros H; vm_compute in H; discriminate H).
        fold (nonspace (join [space] (w :: ws))). by rewrite IH.
    + rewrite decide_True by done. fold (nonspace s).
      rewrite IH by (by apply no_ws_snoc). by rewrite <- app_assoc.
Qed.

(** X1: [_clean_text] is idempotent: cleaning a cleaned text changes
    nothing. *)
Theorem clean_text_idempotent text cleaned :
  _clean_text text = inr cleaned → _clean_text (PStr cleaned) = inr cleaned.
Proof.
  destruct text as [| | |s| | |]; try done. intros [= <-].
  unfold _clean_text. simpl. f_equal.
  change (u " ") with [space]. rewrite split_ws_join; [done |].
  apply split_ws_go_pieces. constructor.
Qed.

Lemma clean_text_idempotent_witness :
  _clean_text (PStr (u "Foo Bar Baz")) = inr (u "Foo Bar Baz").
Proof.
  apply (clean_text_idempotent
           (PStr (u "Foo" ++ [newline; newline] ++ u "  Bar   Baz"))).
  vm_compute. reflexivity.
Defined.

(** X2: [_clean_text] touches whitespace only: the other characters of
    the text are all kept, in their order. *)
Theorem clean_text_keeps_nonspace s cleaned :
  _clean_text (PStr s) = inr cleaned → nonspace cleaned = nonspace s.
Proof.
  intros [= <-]. change (u " ") with [space].
  apply (nonspace_join_split s []). constructor.
Qed.

Lemma clean_text_keeps_nonspace_witness :
  nonspace (u "Foo Bar Baz") = u "FooBarBaz".
Proof.
  rewrite (clean_text_keeps_nonspace
             (u "Foo" ++ [newline; newline] ++ u "  Bar   Baz")
             (u "Foo Bar Baz")).
  - vm_compute. reflexivity.
  - vm_compute. reflexivity.
Defined.

End MoreText.

(** ** Entries *)

Module MoreEntry.
Import PyStr Py Entry Spec More EntryFacts.

(** *** The classes of the exceptions raised *)

Section Within.
Variable P : exc_class → bool.

Lemma raises_within_ret {A} (x : A) : raises_within P (mret x).
Proof. by intros e. Qed.

Lemma raises_within_raise {A} c msg :
  P c = true → raises_within P (@raise A c msg).
Proof. intros Hc e [= <-]. done. Qed.

Lemma raises_within_bind {A B} (m : result A) (f : A → result B) :
  raises_within P m → (∀ x, raises_within P (f x)) →
  raises_within P (m ≫= f).
Proof.
  intros Hm Hf e. destruct m as [e'|x]; simpl.
  - intros [= <-]. by apply Hm.
  - apply Hf.
Qed.

End Within.

Lemma attr_or_type_get v key dflt : raises_within attr_or_type (get v key dflt).
Proof.
  destruct v; try (by apply raises_within_raise); apply raises_within_ret.
Qed.

Lemma attr_or_type_entry_get v key dflt :
  raises_within attr_or_type (entry_get v key dflt).
Proof.
  destruct v; try (by apply raises_within_raise); apply raises_within_ret.
Qed.

Lemma attr_or_type_iter v : raises_within attr_or_type (iter v).
Proof.
  destruct v; try (by apply raises_within_raise); apply raises_within_ret.
Qed.

Lemma attr_or_type_as_str v : raises_within attr_or_type (as_str v).
Proof.
  destruct v; try (by apply raises_within_raise); apply raises_within_ret.
Qed.

(** X3: [_parse_entry] returns a record exactly for the entries that are
    mappings whose links, authors and tags are iterable, whose id, title,
    summary and comment are strings, and whose primary category is a
    mapping (each of them possibly absent); for every other entry it
    raises. *)
Theorem parse_entry_returns_iff entry :
  (∃ p, _parse_entry entry = inr p) ↔ normalisable entry.
Proof.
  split.
  - intros [p Hp]. by apply parse_entry_inr in Hp.
  - intros (d & -> & Hd). exists (normalised d). by apply parse_entry_well_typed.
Qed.

(** X4: when [_parse_entry] raises, it raises [AttributeError] or
    [TypeError], never the [ValueError] of the client's own failures. *)
Theorem parse_entry_raises_attr_or_type entry x :
  _parse_entry entry = inl x →
  exc_type x = AttributeError ∨ exc_type x = TypeError.
Proof.
  intros Hx.
  assert (raises_within attr_or_type (_parse_entry entry)) as Hw.
  { unfold _parse_entry, extract_id, _clean_text.
    repeat first
      [ apply raises_within_bind; [| intros ?]
      | apply raises_within_ret
      | apply attr_or_type_get
      | apply attr_or_type_entry_get
      | apply attr_or_type_iter
      | apply attr_or_type_as_str
      | match goal with |- raises_within _ (let '(_, _) := ?y in _) =>
          destruct y end ]. }
  specialize (Hw x Hx). destruct (exc_type x); auto; discriminate.
Qed.

(** A title that is [None] makes the entry raise. *)
Lemma parse_entry_raises_attr_or_type_witness :
  _parse_entry (PDict {[ "title" := PNone ]}) = inl (Exn AttributeError [])
  ∧ (AttributeError = AttributeError ∨ AttributeError = TypeError).
Proof.
  split; [vm_compute; reflexivity |].
  apply (parse_entry_raises_attr_or_type (PDict {[ "title" := PNone ]})
           (Exn AttributeError [])).
  vm_compute. reflexivity.
Defined.

(** X5: the fields [_parse_entry] does not clean are handed on as the
    parsed feed answers for them, whatever their type: published, journal
    reference and DOI are the entry's values, or [''] when absent; updated
    is the entry's value and, on an entry without one, what published is;
    the primary category is the term of the entry's primary-category
    mapping, or [None] when the mapping or its term is absent. *)
Theorem parse_entry_passes_through d p :
  _parse_entry (PDict d) = inr p →
  Paper.published p = default (PStr []) (d !! "published")
  ∧ (∀ v, d !! "updated" = Some v → Paper.updated p = v)
  ∧ (d !! "updated" = None → Paper.updated p = Paper.published p)
  ∧ Paper.journal_ref p = default (PStr []) (d !! "arxiv_journal_ref")
  ∧ Paper.doi p = default (PStr []) (d !! "arxiv_doi")
  ∧ (d !! "arxiv_primary_category" = None → Paper.primary_category p = PNone)
  ∧ (∀ c, d !! "arxiv_primary_category" = Some (PDict c) →
          Paper.primary_category p = default PNone (c !! "term")).
Proof.
  intros Hp. destruct (parse_entry_inr _ _ Hp) as (d' & [= <-] & Hd).
  rewrite parse_entry_well_typed in Hp by done. injection Hp as <-.
  unfold normalised, dict_get. cbn.
  split_and!; try done.
  - by intros v ->.
  - by intros ->.
  - by intros ->.
  - by intros c ->.
Qed.

(** An entry with a publication date and no update date: the record's
    update date is the publication date. *)
Lemma parse_entry_passes_through_witness :
  ∃ p, _parse_entry (PDict {[ "published" := PStr (u "2021-03-15") ]}) = inr p
       ∧ Paper.published p = PStr (u "2021-03-15")
       ∧ Paper.updated p = PStr (u "2021-03-15")
       ∧ Paper.primary_category p = PNone.
Proof.
  eexists. split; [vm_compute; reflexivity |].
  destruct (parse_entry_passes_through
              {[ "published" := PStr (u "2021-03-15") ]}
              (normalised {[ "published" := PStr (u "2021-03-15") ]}))
    as (Hpub & _ & Hupd & _ & _ & Hprim & _).
  - vm_compute. reflexivity.
  - split; [exact Hpub |]. split; [| by apply Hprim].
    refine (eq_trans (Hupd _) Hpub). vm_compute. reflexivity.
Defined.

End MoreEntry.

(** ** The operations *)

Module MoreClient.
Import PyStr Py Entry Client Spec More EntryFacts ClientFacts.

Lemma mapM_parse_entry_dicts ds :
  Forall (λ d, well_typed d = true) ds →
  mapM _parse_entry (PDict <$> ds) = inr (normalised <$> ds).
Proof.
  induction 1 as [|d ds Hd _ IH]; [done |].
  cbn [fmap list_fmap mapM]. rewrite parse_entry_well_typed by done.
  cbn. by rewrite IH.
Qed.

Lemma mapM_parse_entry_inr entries ps :
  mapM _parse_entry entries = inr ps → Forall normalisable entries.
Proof.
  revert ps. induction entries as [|entry entries IH]; intros ps; [done |].
  cbn [mapM]. destruct (_parse_entry entry) as [x|p] eqn:Hp; [done |].
  cbn. destruct (mapM _parse_entry entries) as [x|ps'] eqn:Hps; [done |].
  intros _. constructor; [by eapply parse_entry_inr | by eapply IH].
Qed.

Lemma search_on_feed parse e query max_results w entries :
  feed_of parse e entries →
  (search parse e query max_results w).1 =
  if truthy entries then iter entries ≫= mapM _parse_entry else inr [].
Proof.
  intros (r & d & Ho & Hs & Hp & Hd). rewrite search_factor, Ho. cbn [fst].
  rewrite (search_reply_entries parse r d) by (done || by rewrite Hd).
  unfold dict_get, getattr. by rewrite Hd.
Qed.

Lemma get_paper_on_feed parse e paper_id w entries :
  feed_of parse e entries →
  (get_paper parse e paper_id w).1 =
  if truthy entries then getitem0 entries ≫= _parse_entry
  else inl (Exn ValueError (paper_not_found paper_id)).
Proof.
  intros (r & d & Ho & Hs & Hp & Hd). rewrite get_paper_factor, Ho. cbn [fst].
  rewrite (get_paper_reply_entries parse paper_id r d)
    by (done || by rewrite Hd).
  unfold dict_get, getattr. by rewrite Hd.
Qed.

(** X6: [search] returns one record per entry of the feed, in the feed's
    order: the normalisation of each entry. *)
Theorem search_keeps_feed_order parse e query max_results w ds :
  feed_of parse e (PList (PDict <$> ds)) →
  Forall (λ d, well_typed d = true) ds →
  (search parse e query max_results w).1 = inr (normalised <$> ds)
  ∧ length (normalised <$> ds) = length ds.
Proof.
  intros Hfeed Hds. rewrite (search_on_feed _ _ _ _ _ _ Hfeed).
  split; [| by rewrite length_fmap].
  destruct ds as [|d ds]; [done |].
  cbn [truthy fmap list_fmap negb bool_decide]. rewrite bool_decide_eq_false_2 by done.
  cbn [negb iter mbind result_bind mret result_ret].
  by apply (mapM_parse_entry_dicts (d :: ds)).
Qed.

Lemma feed_of_parse_as entries : feed_of (parse_as entries) empty_body entries.
Proof. by exists (Response 200 [] []), {[ "entries" := entries ]}. Qed.

Lemma search_keeps_feed_order_witness :
  (search (parse_as (PList (PDict <$> [Examples.sample_fields; ∅])))
          empty_body (u "cat:cs.AI") 10 (init 0)).1
  = inr [normalised Examples.sample_fields; normalised ∅].
Proof.
  apply (search_keeps_feed_order
           (parse_as (PList (PDict <$> [Examples.sample_fields; ∅])))
           empty_body (u "cat:cs.AI") 10 (init 0)
           [Examples.sample_fields; ∅]).
  - apply feed_of_parse_as.
  - repeat constructor.
Defined.

(** X7: [search] gives all or nothing: one entry of the feed that does not
    normalise makes the whole call raise, with an error of the
    interpreter rather than a [ValueError]. *)
Theorem search_all_or_nothing parse e query max_results w entries :
  feed_of parse e (PList entries) →
  ¬ Forall normalisable entries →
  ∃ x, (search parse e query max_results w).1 = inl x
       ∧ of_interpreter (exc_type x) = true.
Proof.
  intros Hfeed Hbad. rewrite (search_on_feed _ _ _ _ _ _ Hfeed).
  destruct entries as [|entry entries]; [by destruct Hbad |].
  cbn [truthy]. rewrite bool_decide_eq_false_2 by done.
  cbn [negb iter mbind result_bind mret result_ret].
  destruct (mapM _parse_entry (entry :: entries)) as [x|ps] eqn:Hm.
  - exists x. split; [done |]. by apply (interp_only_mapM (entry :: entries)).
  - destruct Hbad. by eapply mapM_parse_entry_inr.
Qed.

Lemma search_all_or_nothing_witness :
  ∃ x, (search (parse_as (PList [PDict ∅; PNone])) empty_body
               (u "cat:cs.AI") 10 (init 0)).1 = inl x
       ∧ of_interpreter (exc_type x) = true.
Proof.
  apply (search_all_or_nothing (parse_as (PList [PDict ∅; PNone])) empty_body
           (u "cat:cs.AI") 10 (init 0) [PDict ∅; PNone]).
  - apply feed_of_parse_as.
  - intros H. inversion H as [|?? _ H']; subst.
    inversion H' as [|?? (d & Hd & _) _]; subst. discriminate Hd.
Defined.

(** X8: [get_paper] returns the normalisation of the first entry of the
    feed, whatever follows it. *)
Theorem get_paper_first_entry parse e paper_id w d rest :
  feed_of parse e (PList (PDict d :: rest)) → well_typed d = true →
  (get_paper parse e paper_id w).1 = inr (normalised d).
Proof.
  intros Hfeed Hd. rewrite (get_paper_on_feed _ _ _ _ _ Hfeed).
  cbn [truthy]. rewrite bool_decide_eq_false_2 by done.
  cbn [negb getitem0 mbind result_bind mret result_ret].
  by apply parse_entry_well_typed.
Qed.

Lemma get_paper_first_entry_witness :
  (get_paper (parse_as (PList [PDict Examples.sample_fields; PNone]))
             empty_body (u "2103.08220") (init 0)).1
  = inr (normalised Examples.sample_fields).
Proof.
  apply (get_paper_first_entry
           (parse_as (PList [PDict Examples.sample_fields; PNone]))
           empty_body (u "2103.08220") (init 0) Examples.sample_fields
           [PNone]).
  - apply feed_of_parse_as.
  - vm_compute. reflexivity.
Defined.

(** X9: [get_paper], however it ends, sends one request, for the one
    identifier: [id_list] is the identifier and [max_results] is 1. *)
Theorem get_paper_request parse e paper_id w :
  trace (get_paper parse e paper_id w).2 =
  trace w ++ sleeps e w ++
  [EvStamp (stamp_time e w);
   EvGet (u "http://export.arxiv.org/api/query")
     [("id_list", PStr paper_id); ("max_results", PInt 1)]].
Proof. by rewrite get_paper_factor. Qed.

(** X10: a caller of [_wait_for_rate_limit] that finds a timestamp [l] and
    reads the clock less than the interval after it sleeps for exactly
    the rest of the interval, and stores [l + interval] (plus what the
    sleep overran); one that reads the clock later does not sleep and
    stores what it read. *)
Theorem wait_sleeps_the_remainder e w l :
  last_request w = Some l →
  (clock w + lock_wait e - l < interval →
   trace (_wait_for_rate_limit e w).2 =
     trace w ++ [EvSleep (l + interval - (clock w + lock_wait e));
                 EvStamp (l + interval + oversleep e)]
   ∧ 0 < l + interval - (clock w + lock_wait e))
  ∧ (interval ≤ clock w + lock_wait e - l →
     trace (_wait_for_rate_limit e w).2 =
       trace w ++ [EvStamp (clock w + lock_wait e)]).
Proof.
  intros Hl. rewrite wait_for_rate_limit_spec. cbn [snd trace].
  unfold sleeps, stamp_time, remaining_wait. rewrite Hl.
  destruct (Z.ltb_spec (clock w + lock_wait e - l) interval); split;
    try lia; intros _.
  - split; [| lia].
    replace (interval - (clock w + lock_wait e - l))
      with (l + interval - (clock w + lock_wait e)) by lia.
    replace (clock w + lock_wait e + (l + interval - (clock w + lock_wait e))
             + oversleep e)
      with (l + interval + oversleep e) by lia.
    done.
  - done.
Qed.

(** A second caller, one second after the first. *)
Lemma wait_sleeps_the_remainder_witness :
  trace (_wait_for_rate_limit (Env 1000000 0 0 (HttpRaises []))
                              (World 0 (Some 0) [])).2
  = [EvSleep 2000000; EvStamp 3000000].
Proof.
  apply (wait_sleeps_the_remainder (Env 1000000 0 0 (HttpRaises []))
           (World 0 (Some 0) []) 0 eq_refl).
  reflexivity.
Defined.

End MoreClient.

(** ** The rate gate under concurrency *)

Module MoreGate.
Import Client Gate Spec More GateFacts.

(** *** Counting callers *)

Lemma finished_pending ts : (finished ts + pending ts = length ts)%nat.
Proof.
  induction ts as [|p ts IH]; [done |]. simpl. destruct (is_done p); lia.
Qed.

Lemma finished_insert ts : ∀ i q p,
  ts !! i = Some q →
  (finished (<[i := p]> ts) + (if is_done q then 1 else 0)
   = finished ts + (if is_done p then 1 else 0))%nat.
Proof.
  induction ts as [|a ts IH]; intros [|i] q p Hq; try done; simpl in *.
  - injection Hq as ->. lia.
  - specialize (IH i q p Hq). lia.
Qed.

Lemma pending_insert ts : ∀ i q p,
  ts !! i = Some q →
  (pending (<[i := p]> ts) + (if is_done q then 0 else 1)
   = pending ts + (if is_done p then 0 else 1))%nat.
Proof.
  induction ts as [|a ts IH]; intros [|i] q p Hq; try done; simpl in *.
  - injection Hq as ->. lia.
  - specialize (IH i q p Hq). lia.
Qed.

Lemma pending_zero ts : pending ts = 0%nat → Forall (λ p, p = Done) ts.
Proof.
  induction ts as [|p ts IH]; [constructor |]. simpl.
  destruct p; simpl; try lia. intros H. constructor; [done | by apply IH].
Qed.

Lemma pending_pos ts :
  pending ts ≠ 0%nat → ∃ i p, ts !! i = Some p ∧ is_done p = false.
Proof.
  induction ts as [|p ts IH]; [done |]. simpl.
  destruct (is_done p) eqn:Hp.
  - intros H. destruct IH as (i & q & Hi & Hq); [lia |]. by exists (S i), q.
  - intros _. by exists 0%nat, p.
Qed.

(** *** The lock *)

Lemma lock_inv_init n now last : lock_inv (init n now last).
Proof.
  unfold lock_inv, init; cbn [tasks lock dispatched].
  split_and!; try done.
  - by intros i p [-> _]%lookup_replicate.
  - induction n as [|n IH]; [done |]. simpl. by rewrite <- IH.
Qed.

Lemma lock_inv_step lbl s s' :
  lock_inv s → step lbl s = Some s' → lock_inv s'.
Proof.
  intros (Hmutex & Hheld & Hcount) Hstep.
  assert (∀ i j p q, tasks s !! i = Some p → in_critical p = true →
            j ≠ i → tasks s !! j = Some q → in_critical q = false)
    as Hothers.
  { intros i j p q Hi Hp Hne Hj. destruct (in_critical q) eqn:Hq; [| done].
    pose proof (Hmutex i p Hi Hp). pose proof (Hmutex j q Hj Hq).
    congruence. }
  destruct lbl as [d | i | i | i | i]; simpl in Hstep.
  - destruct (decide (0 ≤ d)) as [Hd|]; [| done]. by injection Hstep as <-.
  - destruct (tasks s !! i) as [[| | | |]|] eqn:Hi; try done.
    destruct (lock s) eqn:Hlock; [done |]. injection Hstep as <-.
    unfold lock_inv; cbn [tasks lock dispatched]. split_and!.
    + intros j p [[-> ->] | [Hne Hj]]%lookup_set Hp; [done |].
      specialize (Hmutex j p Hj Hp). congruence.
    + intros j [= <-]. exists Entered. split; [| done].
      apply list_lookup_insert_eq. by eapply lookup_lt_Some.
    + pose proof (finished_insert (tasks s) i Idle Entered Hi) as Hf.
      simpl in Hf. lia.
  - destruct (tasks s !! i) as [[| | | |]|] eqn:Hi; try done.
    pose proof (Hmutex i Entered Hi eq_refl) as Hlock.
    assert (∃ p, Some s' = Some (set_task i p s)
                 ∧ in_critical p = true ∧ is_done p = false)
      as (p & Hs' & Hp & Hnd).
    { destruct (remaining_wait _ _); eexists; by rewrite <- Hstep. }
    injection Hs' as ->.
    unfold lock_inv, set_task; cbn [tasks lock dispatched]. split_and!.
    + intros j q [[-> ->] | [Hne Hj]]%lookup_set Hq; [done |].
      by rewrite (Hothers i j Entered q) in Hq.
    + intros j Hj. assert (j = i) as -> by congruence.
      exists p. split; [| done].
      apply list_lookup_insert_eq. by eapply lookup_lt_Some.
    + pose proof (finished_insert (tasks s) i Entered p Hi) as Hf.
      simpl in Hf. rewrite Hnd in Hf. lia.
  - destruct (tasks s !! i) as [[| |until| |]|] eqn:Hi; try done.
    destruct (decide (until ≤ clock s)) as [Hwake|]; [| done].
    injection Hstep as <-.
    pose proof (Hmutex i _ Hi eq_refl) as Hlock.
    unfold lock_inv, set_task; cbn [tasks lock dispatched]. split_and!.
    + intros j q [[-> ->] | [Hne Hj]]%lookup_set Hq; [done |].
      by rewrite (Hothers i j (Sleeping until) q) in Hq.
    + intros j Hj. assert (j = i) as -> by congruence.
      exists Stamping. split; [| done].
      apply list_lookup_insert_eq. by eapply lookup_lt_Some.
    + pose proof (finished_insert (tasks s) i _ Stamping Hi) as Hf.
      simpl in Hf. lia.
  - destruct (tasks s !! i) as [[| | | |]|] eqn:Hi; try done.
    injection Hstep as <-.
    unfold lock_inv; cbn [tasks lock dispatched]. split_and!.
    + intros j q [[-> ->] | [Hne Hj]]%lookup_set Hq; [done |].
      by rewrite (Hothers i j Stamping q) in Hq.
    + done.
    + pose proof (finished_insert (tasks s) i _ Done Hi) as Hf.
      simpl in Hf. rewrite length_app. simpl. lia.
Qed.

Lemma lock_inv_run ls : ∀ s s', lock_inv s → run ls s = Some s' → lock_inv s'.
Proof.
  induction ls as [|l ls IH]; intros s s' Hinv; simpl.
  - by intros [= <-].
  - destruct (step l s) as [s1|] eqn:Hstep; [| done].
    apply IH. by eapply lock_inv_step.
Qed.

Lemma step_length lbl s s' :
  step lbl s = Some s' → length (tasks s') = length (tasks s).
Proof.
  destruct lbl as [d | i | i | i | i]; simpl.
  - destruct (decide (0 ≤ d)); [| done]. by intros [= <-].
  - destruct (tasks s !! i) as [[| | | |]|]; try done.
    destruct (lock s); [done |]. intros [= <-]. apply length_insert.
  - destruct (tasks s !! i) as [[| | | |]|]; try done.
    destruct (remaining_wait _ _); intros [= <-]; apply length_insert.
  - destruct (tasks s !! i) as [[| |until| |]|]; try done.
    destruct (decide (until ≤ clock s)); [| done].
    intros [= <-]. apply length_insert.
  - destruct (tasks s !! i) as [[| | | |]|]; try done.
    intros [= <-]. apply length_insert.
Qed.

Lemma run_length ls : ∀ s s',
  run ls s = Some s' → length (tasks s') = length (tasks s).
Proof.
  induction ls as [|l ls IH]; intros s s'; simpl.
  - by intros [= <-].
  - destruct (step l s) as [s1|] eqn:Hstep; [| done].
    intros Hrun. rewrite (IH _ _ Hrun). by eapply step_length.
Qed.

(** X11: mutual exclusion.  In every state the tasks can reach, at most one
    task is between taking the lock and storing its timestamp, and the
    lock is free exactly when no task is. *)
Theorem gate_mutual_exclusion n now last ls s :
  run ls (init n now last) = Some s →
  (∀ i j p q, tasks s !! i = Some p → tasks s !! j = Some q →
     in_critical p = true → in_critical q = true → i = j)
  ∧ (lock s = None ↔
     ∀ i p, tasks s !! i = Some p → in_critical p = false).
Proof.
  intros Hrun.
  destruct (lock_inv_run _ _ _ (lock_inv_init n now last) Hrun)
    as (Hmutex & Hheld & _).
  split.
  - intros i j p q Hi Hj Hp Hq.
    pose proof (Hmutex i p Hi Hp). pose proof (Hmutex j q Hj Hq). congruence.
  - split.
    + intros Hfree i p Hi. destruct (in_critical p) eqn:Hp; [| done].
      specialize (Hmutex i p Hi Hp). congruence.
    + intros Hnone. destruct (lock s) as [i|] eqn:Hlock; [| done].
      destruct (Hheld i eq_refl) as (p & Hi & Hp).
      specialize (Hnone i p Hi). congruence.
Qed.

Lemma gate_mutual_exclusion_witness :
  lock (State 3000000 (Some 3000000) None [Done; Done] [0; 3000000]) = None
  ↔ ∀ i p, [Done; Done] !! i = Some p → in_critical p = false.
Proof.
  apply (gate_mutual_exclusion 2 0 None Examples.two_callers
           (State 3000000 (Some 3000000) None [Done; Done] [0; 3000000])).
  reflexivity.
Defined.

(** X12: every caller that has returned has stored exactly one timestamp:
    the timestamps stored are as many as the tasks that are through, and
    never more than the callers. *)
Theorem one_timestamp_per_caller n now last ls s :
  run ls (init n now last) = Some s →
  length (dispatched s) = finished (tasks s)
  ∧ length (tasks s) = n
  ∧ (length (dispatched s) ≤ n)%nat.
Proof.
  intros Hrun.
  destruct (lock_inv_run _ _ _ (lock_inv_init n now last) Hrun)
    as (_ & _ & Hcount).
  pose proof (run_length _ _ _ Hrun) as Hlen.
  cbn [init tasks] in Hlen. rewrite length_replicate in Hlen.
  pose proof (finished_pending (tasks s)). split_and!; [done | done | lia].
Qed.

Lemma one_timestamp_per_caller_witness :
  length [0; 3000000] = finished [Done; Done].
Proof.
  apply (one_timestamp_per_caller 2 0 None Examples.two_callers
           (State 3000000 (Some 3000000) None [Done; Done] [0; 3000000])).
  reflexivity.
Defined.




(** *** Progress *)

Lemma run_app l1 : ∀ l2 s,
  run (l1 ++ l2) s =
  match run l1 s with Some s1 => run l2 s1 | None => None end.
Proof.
  induction l1 as [|l l1 IH]; intros l2 s; [done |]. simpl.
  destruct (step l s); [apply IH | done].
Qed.

Lemma finish_stamping s i :
  tasks s !! i = Some Stamping →
  ∃ ls s', run ls s = Some s' ∧ tasks s' = <[i := Done]> (tasks s).
Proof.
  intros Hi. exists [Stamp i]. eexists. simpl. rewrite Hi. done.
Qed.

Lemma finish_sleeping s i until :
  tasks s !! i = Some (Sleeping until) →
  ∃ ls s', run ls s = Some s' ∧ tasks s' = <[i := Done]> (tasks s).
Proof.
  intros Hi.
  set (s1 := State (clock s + Z.max 0 (until - clock s)) (last_request s)
                   (lock s) (tasks s) (dispatched s)).
  destruct (finish_stamping (set_task i Stamping s1) i) as (ls & s' & Hrun & Hts).
  { cbn [set_task tasks s1]. apply list_lookup_insert_eq.
    by eapply lookup_lt_Some. }
  exists ([Tick (Z.max 0 (until - clock s)); Wake i] ++ ls), s'.
  rewrite run_app. cbn [run step]. rewrite decide_True by lia.
  fold s1. cbn [tasks s1]. rewrite Hi.
  rewrite decide_True by (cbn [clock s1]; lia).
  split; [done |]. rewrite Hts. cbn [set_task tasks s1].
  apply list_insert_insert_eq.
Qed.

Lemma finish_entered s i :
  tasks s !! i = Some Entered →
  ∃ ls s', run ls s = Some s' ∧ tasks s' = <[i := Done]> (tasks s).
Proof.
  intros Hi.
  assert (i < length (tasks s))%nat as Hlt by (by eapply lookup_lt_Some).
  destruct (remaining_wait (last_request s) (clock s)) as [d|] eqn:Hd.
  - destruct (finish_sleeping (set_task i (Sleeping (clock s + d)) s) i
                (clock s + d)) as (ls & s' & Hrun & Hts).
    { cbn [set_task tasks]. by apply list_lookup_insert_eq. }
    exists (Check i :: ls), s'. cbn [run step]. rewrite Hi, Hd.
    split; [done |]. rewrite Hts. cbn [set_task tasks].
    apply list_insert_insert_eq.
  - destruct (finish_stamping (set_task i Stamping s) i)
      as (ls & s' & Hrun & Hts).
    { cbn [set_task tasks]. by apply list_lookup_insert_eq. }
    exists (Check i :: ls), s'. cbn [run step]. rewrite Hi, Hd.
    split; [done |]. rewrite Hts. cbn [set_task tasks].
    apply list_insert_insert_eq.
Qed.

Lemma finish_idle s i :
  lock s = None → tasks s !! i = Some Idle →
  ∃ ls s', run ls s = Some s' ∧ tasks s' = <[i := Done]> (tasks s).
Proof.
  intros Hfree Hi.
  assert (i < length (tasks s))%nat as Hlt by (by eapply lookup_lt_Some).
  destruct (finish_entered
              (State (clock s) (last_request s) (Some i)
                     (<[i := Entered]> (tasks s)) (dispatched s)) i)
    as (ls & s' & Hrun & Hts).
  { cbn [tasks]. by apply list_lookup_insert_eq. }
  exists (Lock i :: ls), s'. cbn [run step]. rewrite Hi, Hfree.
  split; [done |]. rewrite Hts. cbn [tasks]. apply list_insert_insert_eq.
Qed.

(** Some task that has not returned can be taken to its end. *)
Lemma finish_one s :
  lock_inv s → pending (tasks s) ≠ 0%nat →
  ∃ ls s', run ls s = Some s'
           ∧ S (pending (tasks s')) = pending (tasks s).
Proof.
  intros (Hmutex & Hheld & _) Hpending.
  assert (∃ i p, tasks s !! i = Some p ∧ is_done p = false
                 ∧ ∃ ls s', run ls s = Some s'
                            ∧ tasks s' = <[i := Done]> (tasks s))
    as (i & p & Hi & Hp & ls & s' & Hrun & Hts).
  { destruct (lock s) as [j|] eqn:Hlock.
    - destruct (Hheld j eq_refl) as (p & Hj & Hp).
      exists j, p. split; [done |]. split; [by destruct p |].
      destruct p; try done;
        [by apply finish_entered | by eapply finish_sleeping
        | by apply finish_stamping].
    - destruct (pending_pos _ Hpending) as (i & p & Hi & Hp).
      exists i, p. split; [done |]. split; [done |].
      destruct (in_critical p) eqn:Hc.
      + specialize (Hmutex i p Hi Hc). congruence.
      + destruct p; try done. by apply finish_idle. }
  exists ls, s'. split; [done |]. rewrite Hts.
  pose proof (pending_insert (tasks s) i p Done Hi) as Hins.
  rewrite Hp in Hins. simpl in Hins. lia.
Qed.

Lemma finish_all k : ∀ s,
  lock_inv s → (pending (tasks s) ≤ k)%nat →
  ∃ ls s', run ls s = Some s' ∧ pending (tasks s') = 0%nat.
Proof.
  induction k as [|k IH]; intros s Hinv Hk.
  - exists [], s. split; [done | lia].
  - destruct (decide (pending (tasks s) = 0%nat)) as [Hz | Hnz].
    + by exists [], s.
    + destruct (finish_one s Hinv Hnz) as (ls1 & s1 & Hrun1 & Hdec).
      destruct (IH s1) as (ls2 & s2 & Hrun2 & Hz).
      * by eapply lock_inv_run.
      * lia.
      * exists (ls1 ++ ls2), s2. by rewrite run_app, Hrun1.
Qed.

(** X14: the gate does not deadlock.  From every state the callers can
    reach, some schedule takes every caller to its return, each having
    stored its timestamp. *)
Theorem gate_makes_progress n now l0 ls s :
  run ls (init n now l0) = Some s →
  ∃ ls' s', run ls' s = Some s'
            ∧ Forall (λ p, p = Done) (tasks s')
            ∧ length (dispatched s') = n.
Proof.
  intros Hrun.
  pose proof (lock_inv_run _ _ _ (lock_inv_init n now l0) Hrun) as Hinv.
  destruct (finish_all (pending (tasks s)) s Hinv (le_n _))
    as (ls' & s' & Hrun' & Hz).
  exists ls', s'. split; [done |]. split; [by apply pending_zero |].
  assert (run (ls ++ ls') (init n now l0) = Some s') as Hall
    by (by rewrite run_app, Hrun).
  destruct (one_timestamp_per_caller _ _ _ _ _ Hall) as (Hcount & Hlen & _).
  pose proof (finished_pending (tasks s')). lia.
Qed.

(** The first of two callers holds the lock, the second has not begun. *)
Lemma gate_makes_progress_witness :
  ∃ ls' s',
    run ls' (State 0 None (Some 0%nat) [Stamping; Idle] []) = Some s'
    ∧ Forall (λ p, p = Done) (tasks s')
    ∧ length (dispatched s') = 2%nat.
Proof.
  apply (gate_makes_progress 2 0 None [Lock 0; Check 0]).
  reflexivity.
Defined.

End MoreGate.

(** ** The tool shell *)

Module ServerFacts.
Import PyStr Py Entry Client Spec More Server ServerSpec.
Import EntryFacts ClientFacts MoreClient.

Section WithBuiltins.
Variable parse : str → pyval.
Variable int_of_str : str → result Z.
Variable repr_other : pyval → str.



Ltac names_differ :=
  let H := fresh in intros H; vm_compute in H; discriminate H.

(** On a string the shell's calls are those of the client. *)
Lemma search_any_str e query max_results :
  search_any parse e (PStr query) max_results
  = search parse e query max_results.
Proof. done. Qed.

Lemma get_paper_any_str e paper_id :
  get_paper_any parse repr_other e (PStr paper_id)
  = get_paper parse e paper_id.
Proof. done. Qed.

(** *** The branches *)

Lemma call_tool_search sv arguments query n w :
  arguments !! "query" = Some query →
  py_int int_of_str (dict_get arguments "max_results" (PInt 10)) = inr n →
  Server.call_tool parse int_of_str repr_other sv (u "search_papers") arguments w =
  let '(r, w') := search_any parse (client sv) query (Z.min n 50) w in
  match r ≫= format_results repr_other 1 search_header with
  | inr text => (inr [Content text false], w')
  | inl x => (inr [Content (u "Error: " ++ exc_msg x) true], w')
  end.
Proof.
  intros Hq Hn. unfold Server.call_tool, except_exception.
  rewrite decide_True by done.
  unfold lift, subscript. rewrite Hq, Hn.
  cbv beta iota zeta delta [mbind M_bind mret M_ret result_ret].
  destruct (search_any parse (client sv) query (n `min` 50) w)
    as [[x|papers] w']; [done |].
  cbv beta iota zeta delta [result_bind].
  by destruct (format_results repr_other 1 search_header papers).
Qed.

Lemma call_tool_get_paper sv arguments paper_id w :
  arguments !! "paper_id" = Some paper_id →
  Server.call_tool parse int_of_str repr_other sv (u "get_paper_data") arguments w =
  let '(r, w') := get_paper_any parse repr_other (client sv) paper_id w in
  match r ≫= format_paper repr_other with
  | inr text => (inr [Content text false], w')
  | inl x => (inr [Content (u "Error: " ++ exc_msg x) true], w')
  end.
Proof.
  intros Hp. unfold Server.call_tool, except_exception.
  rewrite decide_False by names_differ. rewrite decide_True by done.
  unfold lift, subscript. rewrite Hp.
  cbv beta iota zeta delta [mbind M_bind mret M_ret result_ret].
  destruct (get_paper_any parse repr_other (client sv) paper_id w)
    as [[x|paper] w']; [done |].
  cbv beta iota zeta delta [result_bind].
  by destruct (format_paper repr_other paper).
Qed.

(** *** What the shell returns *)

Lemma one_item_ret c : one_item (mret [c]).
Proof. intros w l w' [= <- _]. by exists c. Qed.

Lemma one_item_bind {A} (m : M A) (f : A → M (list content)) :
  (∀ x, one_item (f x)) → one_item (m ≫= f).
Proof.
  intros Hf w l w'. rewrite M_bind_run.
  destruct (m w) as [[x|a] w1]; [done |]. apply Hf.
Qed.

(** X15: [call_tool] never raises: for every tool name and all
    arguments it returns one content item. *)
Theorem call_tool_never_raises sv name arguments w :
  ∃ c w', Server.call_tool parse int_of_str repr_other sv name arguments w
          = (inr [c], w').
Proof.
  unfold Server.call_tool, except_exception.
  match goal with |- context [let (_, _) := ?body w in _] =>
    assert (one_item body) as Hone; [| destruct (body w) as [[x|l] w'] eqn:Hb]
  end.
  - repeat case_decide;
      repeat (apply one_item_bind; intros ?);
      try apply one_item_ret.
    + destruct (load_taxonomy sv); apply one_item_ret.
    + destruct (update_taxonomy_file sv); apply one_item_ret.
  - by eexists _, _.
  - destruct (Hone _ _ _ Hb) as [c ->]. by eexists _, _.
Qed.

(** X16: through the shell a search asks for at most 50 results: the
    request carries the smaller of [int(max_results)] and 50 (10 when the
    argument is absent), so the client's own limit of 2000 is never
    reached; values below 1 are passed on. *)
Theorem search_papers_caps_at_50 sv arguments query n w :
  arguments !! "query" = Some (PStr query) →
  py_int int_of_str (dict_get arguments "max_results" (PInt 10)) = inr n →
  trace (Server.call_tool parse int_of_str repr_other sv (u "search_papers")
                          arguments w).2
  = trace w ++ sleeps (client sv) w ++
    [EvStamp (stamp_time (client sv) w);
     EvGet base_url
       [("search_query", PStr query);
        ("max_results", PInt (Z.min n 50));
        ("sortBy", PStr (u "submittedDate"));
        ("sortOrder", PStr (u "descending"))]]
  ∧ Z.min n 50 ≤ 50
  ∧ (arguments !! "max_results" = None → n = 10).
Proof.
  intros Hq Hn. rewrite (call_tool_search sv arguments _ n w Hq Hn).
  rewrite search_any_str, search_factor. split_and!.
  - replace (Z.min (Z.min n 50) 2000) with (Z.min n 50) by lia.
    by destruct (search_reply parse (outcome (client sv))
                 ≫= format_results repr_other 1 search_header).
  - lia.
  - intros Hm. unfold dict_get in Hn. rewrite Hm in Hn. by injection Hn.
Qed.

(** X17: a tool call that does not reach the client leaves the rate gate
    alone: no timestamp is stored and no request is sent when the tool is
    not one of the two client tools, when the required argument is
    missing, or when [max_results] is not a number. *)
Theorem no_client_call_no_slot sv name arguments w :
  ¬ calls_client name
  ∨ (name = u "search_papers"
     ∧ (arguments !! "query" = None
        ∨ ∃ x, py_int int_of_str (dict_get arguments "max_results" (PInt 10))
               = inl x))
  ∨ (name = u "get_paper_data" ∧ arguments !! "paper_id" = None) →
  (Server.call_tool parse int_of_str repr_other sv name arguments w).2 = w.
Proof.
  unfold Server.call_tool, except_exception, calls_client.
  intros [Hno | [[-> Hbad] | [-> Hp]]].
  - rewrite decide_False by tauto. rewrite decide_False by tauto.
    repeat case_decide; try done.
    + by destruct (load_taxonomy sv).
    + by destruct (update_taxonomy_file sv).
  - rewrite decide_True by done. unfold lift, subscript.
    cbv beta iota zeta delta [mbind M_bind mret M_ret result_ret].
    destruct (arguments !! "query") as [query|]; [| done].
    destruct Hbad as [[=] | [x ->]]. done.
  - rewrite decide_False by names_differ. rewrite decide_True by done.
    unfold lift, subscript. rewrite Hp. done.
Qed.

(** X18: the shell reports a failure of the client as flagged text,
    "Error: " followed by the message of the exception: an unknown
    identifier gives "Error: Paper not found: " and the identifier. *)
Theorem client_failures_are_reported sv arguments w :
  (∀ paper_id x,
     arguments !! "paper_id" = Some (PStr paper_id) →
     (get_paper parse (client sv) paper_id w).1 = inl x →
     (Server.call_tool parse int_of_str repr_other sv (u "get_paper_data")
                       arguments w).1
     = inr [Content (u "Error: " ++ exc_msg x) true])
  ∧ (∀ query n x,
       arguments !! "query" = Some (PStr query) →
       py_int int_of_str (dict_get arguments "max_results" (PInt 10))
       = inr n →
       (search parse (client sv) query (Z.min n 50) w).1 = inl x →
       (Server.call_tool parse int_of_str repr_other sv (u "search_papers")
                         arguments w).1
       = inr [Content (u "Error: " ++ exc_msg x) true])
  ∧ (∀ paper_id entries,
       arguments !! "paper_id" = Some (PStr paper_id) →
       feed_of parse (client sv) entries → truthy entries = false →
       (Server.call_tool parse int_of_str repr_other sv (u "get_paper_data")
                         arguments w).1
       = inr [Content (u "Error: Paper not found: " ++ paper_id) true]).
Proof.
  assert (∀ paper_id x,
     arguments !! "paper_id" = Some (PStr paper_id) →
     (get_paper parse (client sv) paper_id w).1 = inl x →
     (Server.call_tool parse int_of_str repr_other sv (u "get_paper_data")
                       arguments w).1
     = inr [Content (u "Error: " ++ exc_msg x) true]) as Hget.
  { intros paper_id x Hp Hx. rewrite (call_tool_get_paper sv _ _ w Hp).
    rewrite get_paper_any_str.
    destruct (get_paper parse (client sv) paper_id w) as [r w'].
    simpl in Hx. by rewrite Hx. }
  split_and!; [done | |].
  - intros query n x Hq Hn Hx. rewrite (call_tool_search sv _ _ n w Hq Hn).
    rewrite search_any_str.
    destruct (search parse (client sv) query (n `min` 50) w) as [r w'].
    simpl in Hx. by rewrite Hx.
  - intros paper_id entries Hp Hfeed Hempty.
    rewrite (Hget paper_id (Exn ValueError (paper_not_found paper_id)) Hp).
    + done.
    + rewrite (get_paper_on_feed _ _ _ _ _ Hfeed). by rewrite Hempty.
Qed.

(** X19: a search without matches is answered with the bare heading
    "Search Results:", not flagged as an error. *)
Theorem empty_search_shows_heading sv arguments query n entries w :
  arguments !! "query" = Some (PStr query) →
  py_int int_of_str (dict_get arguments "max_results" (PInt 10)) = inr n →
  feed_of parse (client sv) entries → truthy entries = false →
  (Server.call_tool parse int_of_str repr_other sv (u "search_papers")
                    arguments w).1
  = inr [Content (u "Search Results:" ++ [newline; newline]) false].
Proof.
  intros Hq Hn Hfeed Hempty. rewrite (call_tool_search sv _ _ n w Hq Hn).
  rewrite search_any_str.
  pose proof (search_on_feed parse (client sv) query (n `min` 50) w
                entries Hfeed) as Hs.
  rewrite Hempty in Hs.
  destruct (search parse (client sv) query (n `min` 50) w) as [r w'].
  simpl in Hs. by rewrite Hs.
Qed.

(** *** The text of the results *)

Lemma strs_of_strings items :
  all_strings items → strs_of items = inr (str_of <$> items).
Proof.
  induction 1 as [|v items Hv _ IH]; [done |].
  destruct v; try done. simpl. by rewrite IH.
Qed.

Lemma strs_of_inr items ss : strs_of items = inr ss → all_strings items.
Proof.
  revert ss. induction items as [|v items IH]; intros ss; [constructor |].
  destruct v as [| | |s| | |]; try done. simpl.
  destruct (strs_of items) as [x|ss'] eqn:Hs; [done |].
  intros _. constructor; [done | by eapply IH].
Qed.

Lemma result_lines_strings i paper :
  all_strings (Paper.authors paper) →
  result_lines repr_other i paper = inr (result_block repr_other i paper).
Proof.
  intros Ha. unfold result_lines, str_join.
  by rewrite (strs_of_strings _ Ha).
Qed.

Lemma format_results_strings papers : ∀ i acc,
  Forall (λ paper, all_strings (Paper.authors paper)) papers →
  format_results repr_other i acc papers
  = inr (acc ++ result_blocks repr_other i papers).
Proof.
  induction papers as [|paper papers IH]; intros i acc Hp; simpl.
  - by rewrite app_nil_r.
  - inversion Hp as [|?? Ha Hp']; subst.
    rewrite (result_lines_strings _ _ Ha). cbn [mbind result_bind].
    rewrite IH by done. by rewrite <- app_assoc.
Qed.

Lemma format_results_inr papers : ∀ i acc text,
  format_results repr_other i acc papers = inr text →
  Forall (λ paper, all_strings (Paper.authors paper)) papers.
Proof.
  induction papers as [|paper papers IH]; intros i acc text; [constructor |].
  simpl. unfold result_lines at 1, str_join.
  destruct (strs_of (Paper.authors paper)) as [x|ss] eqn:Hs; [done |].
  cbn [mbind result_bind mret result_ret]. intros Hf.
  constructor; [by eapply strs_of_inr | by eapply IH].
Qed.

(** X20: the answer to a search lists the records the client returned,
    in their order, numbered from 1: after the heading, one block of
    title, authors, id and date per record. *)
Theorem search_results_are_numbered sv arguments query n papers w :
  arguments !! "query" = Some (PStr query) →
  py_int int_of_str (dict_get arguments "max_results" (PInt 10)) = inr n →
  (search parse (client sv) query (Z.min n 50) w).1 = inr papers →
  Forall (λ paper, all_strings (Paper.authors paper)) papers →
  (Server.call_tool parse int_of_str repr_other sv (u "search_papers")
                    arguments w).1
  = inr [Content (search_header ++ result_blocks repr_other 1 papers) false].
Proof.
  intros Hq Hn Hs Hp. rewrite (call_tool_search sv _ _ n w Hq Hn).
  rewrite search_any_str.
  destruct (search parse (client sv) query (n `min` 50) w) as [r w'].
  simpl in Hs. rewrite Hs. cbn [mbind result_bind].
  by rewrite format_results_strings.
Qed.

(** X21: one author name that is not a string spoils the whole answer:
    the client's call has succeeded and taken its rate slot, yet the
    shell answers with a flagged error. *)
Theorem non_string_author_is_an_error sv arguments query n papers w :
  arguments !! "query" = Some (PStr query) →
  py_int int_of_str (dict_get arguments "max_results" (PInt 10)) = inr n →
  (search parse (client sv) query (Z.min n 50) w).1 = inr papers →
  ¬ Forall (λ paper, all_strings (Paper.authors paper)) papers →
  ∃ text,
    Server.call_tool parse int_of_str repr_other sv (u "search_papers")
                     arguments w
    = (inr [Content text true],
       after_call (client sv) (search_params query (Z.min n 50)) w).
Proof.
  intros Hq Hn Hs Hp. rewrite (call_tool_search sv _ _ n w Hq Hn).
  rewrite search_any_str. rewrite search_factor in *. simpl in Hs.
  rewrite Hs. cbn [mbind result_bind].
  replace (Z.min (Z.min n 50) 2000) with (Z.min n 50) by lia.
  destruct (format_results repr_other 1 search_header papers) as [x|text]
    eqn:Hf.
  - by eexists.
  - destruct Hp. by eapply format_results_inr.
Qed.

(** *** The categories *)

Lemma list_step_fold primary_filter taxonomy : ∀ acc,
  fold_left (list_step primary_filter) taxonomy acc
  = acc ++ concat ((λ item, category_lines item.1 item.2)
                   <$> filter (selected primary_filter) taxonomy).
Proof.
  induction taxonomy as [|item taxonomy IH]; intros acc; simpl.
  - by rewrite app_nil_r.
  - rewrite IH, filter_cons. unfold list_step.
    destruct (decide (selected primary_filter item)) as [Hsel | Hno].
    + replace (truthy primary_filter && negb (eq_str primary_filter item.1))
        with false.
      * simpl. by rewrite <- app_assoc.
      * unfold selected in Hsel. destruct (truthy primary_filter); [| done].
        rewrite (Hsel eq_refl). simpl. by rewrite bool_decide_eq_true_2.
    + replace (truthy primary_filter && negb (eq_str primary_filter item.1))
        with true; [done |].
      unfold selected in Hno. destruct (truthy primary_filter).
      * destruct primary_filter as [| | |s| | |]; try done. simpl.
        rewrite bool_decide_eq_false_2; [done |].
        intros ->. by destruct Hno.
      * by destruct Hno.
Qed.

(** X22: [list_categories] shows, between its heading and its usage
    notes, the categories of the taxonomy in their order: all of them
    when no (or an empty) [primary_category] is given, otherwise only the
    one with that code, and none, without any error, when no category has
    it.  The rate gate is not touched. *)
Theorem list_categories_filters sv arguments taxonomy w :
  load_taxonomy sv = inr taxonomy →
  Server.call_tool parse int_of_str repr_other sv (u "list_categories")
                   arguments w
  = (inr [Content
            (categories_header
             ++ concat ((λ item, category_lines item.1 item.2)
                        <$> filter (selected (dict_get arguments
                                                "primary_category" PNone))
                                   taxonomy)
             ++ usage)
            false], w).
Proof.
  intros Hload. unfold Server.call_tool, except_exception.
  rewrite decide_False by names_differ.
  rewrite decide_False by names_differ.
  rewrite decide_True by done. rewrite Hload.
  cbv beta iota zeta delta [mret M_ret].
  by rewrite list_step_fold, <- app_assoc.
Qed.

End WithBuiltins.

(** *** Samples *)

Lemma search_papers_caps_at_50_witness :
  last (trace (Server.call_tool (λ _, feedparser_no_data) no_int no_repr
                 sample_services (u "search_papers")
                 (<[ "max_results" := PInt 5000 ]>
                  {[ "query" := PStr (u "cat:cs.AI") ]})
                 (init 0)).2)
  = Some (EvGet base_url (search_params (u "cat:cs.AI") 50)).
Proof.
  destruct (search_papers_caps_at_50 (λ _, feedparser_no_data) no_int no_repr
              sample_services
              (<[ "max_results" := PInt 5000 ]>
               {[ "query" := PStr (u "cat:cs.AI") ]})
              (u "cat:cs.AI") 5000 (init 0)) as (Htrace & _).
  - reflexivity.
  - reflexivity.
  - rewrite Htrace. reflexivity.
Defined.

Lemma no_client_call_no_slot_witness :
  (Server.call_tool (λ _, feedparser_no_data) no_int no_repr
     sample_services (u "search_papers") ∅ (init 0)).2 = init 0.
Proof.
  apply (no_client_call_no_slot (λ _, feedparser_no_data) no_int no_repr
           sample_services (u "search_papers") ∅ (init 0)).
  right. left. split; [reflexivity |]. left. reflexivity.
Defined.

Lemma empty_search_shows_heading_witness :
  (Server.call_tool (λ _, feedparser_no_data) no_int no_repr
     sample_services (u "search_papers")
     {[ "query" := PStr (u "cat:cs.AI") ]} (init 0)).1
  = inr [Content (u "Search Results:" ++ [newline; newline]) false].
Proof.
  apply (empty_search_shows_heading (λ _, feedparser_no_data) no_int no_repr
           sample_services {[ "query" := PStr (u "cat:cs.AI") ]}
           (u "cat:cs.AI") 10 (PList []) (init 0)).
  - reflexivity.
  - reflexivity.
  - by exists (Response 200 [] []), no_data_fields.
  - reflexivity.
Defined.

Lemma search_results_are_numbered_witness :
  (Server.call_tool (parse_as (PList [PDict Examples.sample_fields; PDict ∅]))
     no_int no_repr sample_services (u "search_papers")
     {[ "query" := PStr (u "cat:cs.AI") ]} (init 0)).1
  = inr [Content
           (search_header
            ++ result_blocks no_repr 1
                 [normalised Examples.sample_fields; normalised ∅])
           false].
Proof.
  apply (search_results_are_numbered
           (parse_as (PList [PDict Examples.sample_fields; PDict ∅]))
           no_int no_repr sample_services
           {[ "query" := PStr (u "cat:cs.AI") ]} (u "cat:cs.AI") 10
           [normalised Examples.sample_fields; normalised ∅] (init 0)).
  - reflexivity.
  - reflexivity.
  - vm_compute. reflexivity.
  - repeat constructor.
Defined.

Lemma non_string_author_is_an_error_witness :
  ∃ text,
    (Server.call_tool
       (parse_as (PList [PDict {[ "authors" :=
                                    PList [PDict {[ "name" := PNone ]}] ]}]))
       no_int no_repr sample_services (u "search_papers")
       {[ "query" := PStr (u "cat:cs.AI") ]} (init 0)).1
    = inr [Content text true].
Proof.
  destruct (non_string_author_is_an_error
              (parse_as (PList [PDict {[ "authors" :=
                                    PList [PDict {[ "name" := PNone ]}] ]}]))
              no_int no_repr sample_services
              {[ "query" := PStr (u "cat:cs.AI") ]} (u "cat:cs.AI") 10
              [normalised {[ "authors" :=
                               PList [PDict {[ "name" := PNone ]}] ]}]
              (init 0)) as [text Htext].
  - reflexivity.
  - reflexivity.
  - vm_compute. reflexivity.
  - intros H. inversion H as [|?? Ha _]; subst.
    vm_compute in Ha. inversion Ha as [|?? Hs _]; subst. discriminate Hs.
  - exists text. by rewrite Htext.
Defined.

Lemma list_categories_filters_witness :
  (Server.call_tool (λ _, PNone) no_int no_repr sample_services
     (u "list_categories") {[ "primary_category" := PStr (u "math") ]}
     (init 0)).1
  = inr [Content
           (categories_header
            ++ category_lines (u "math") (Category (u "Mathematics") [])
            ++ usage)
           false].
Proof.
  rewrite (list_categories_filters (λ _, PNone) no_int no_repr sample_services
             {[ "primary_category" := PStr (u "math") ]} sample_taxonomy
             (init 0) eq_refl).
  vm_compute. reflexivity.
Defined.

End ServerFacts.
